(** * Region selection for oil wells: a shallow embedding of
      [Src/Modelo_Seleccion_Region_OilGas.py]

    The script trains one linear regression per region, estimates the profit
    of developing the best predicted wells by bootstrap, and prints a table
    of the regions ordered by mean profit.

    Conventions of the embedding.
    - A pandas [Series] or [DataFrame] is the list of its rows in positional
      order, each row carrying its index label; labels may repeat.
    - Floating point numbers are idealised as exact rationals ([Q]); the data
      holds no NaN.  Results are therefore stated up to [==] on [Q].
    - Python exceptions are the [Raise] results of an error monad.
    - The libraries are those the script was written for: a scikit-learn
      whose [mean_squared_error] still takes [squared=False] (before 1.6),
      and numpy 1.22 or later, where the percentile of an empty array
      raises IndexError.  Integer seeds are checked as the libraries check
      them: [numpy.random.default_rng] refuses a negative seed and
      [train_test_split] a seed outside [0, 2**32 - 1], both with
      ValueError.
    - numpy, pandas and scikit-learn routines whose result is not fixed by
      their documentation (the order of ties of an unstable sort, the bits
      of a random generator, the least squares solver, the square root, the
      content of the files) are the fields of the class [Library]; the
      facts the proofs need about them are the class [LibraryLaws]. *)

From Stdlib Require Import String Bool Arith.
From Stdlib Require Import List ZArith QArith Qround Qreduction Lia Lqa.
From Stdlib Require Import Permutation Sorted Orders Mergesort.
Import ListNotations.

Set Implicit Arguments.
Local Open Scope Q_scope.

(** ** Exceptions *)

Inductive exception : Type :=
| KeyError        (* a label asked from [.loc] is not in the index *)
| ValueError      (* numpy / scikit-learn argument checks *)
| IndexError      (* a position out of range *)
| OSError.        (* a file cannot be read *)

Inductive result (A : Type) : Type :=
| Ok (a : A)
| Raise (e : exception).
Arguments Ok {A} a.
Arguments Raise {A} e.

Definition bind {A B} (r : result A) (k : A -> result B) : result B :=
  match r with
  | Ok a => k a
  | Raise e => Raise e
  end.

Notation "x <- r ;; k" := (bind r (fun x => k))
  (at level 61, r at next level, right associativity).
Notation "' pat <- r ;; k" := (bind r (fun x => match x with pat => k end))
  (at level 61, pat pattern, r at next level, right associativity).

Fixpoint mapM {A B} (f : A -> result B) (l : list A) : result (list B) :=
  match l with
  | [] => Ok []
  | a :: l' => b <- f a ;; bs <- mapM f l' ;; Ok (b :: bs)
  end.

(** ** Module constants (lines 7-12) *)

Definition RANDOM_STATE : Z := 12345.
Definition BUDGET : Q := 10000000 # 1.
Definition REVENUE_PER_THOUSAND_BARRELS : Q := 4500 # 1.
Definition N_WELLS_PER_REGION : Z := 500.
Definition N_TOP_WELLS : Z := 200.
Definition N_BOOTSTRAP_ITER : Z := 1000.

(** ** Indexed data *)

Definition label := Z.

(** Rows in positional order, each with its index label. *)
Definition Frame (A : Type) := list (label * A).
Definition Series := Frame Q.

Definition index {A} (s : Frame A) : list label := map fst s.
Definition values {A} (s : Frame A) : list A := map snd s.

(** [numpy.take] / [.iloc[positions]]: a position out of range raises. *)
Fixpoint take {A} (l : list A) (positions : list nat) : result (list A) :=
  match positions with
  | [] => Ok []
  | i :: ps =>
      match nth_error l i with
      | Some a => rest <- take l ps ;; Ok (a :: rest)
      | None => Raise IndexError
      end
  end.

(** [s.head(n)]: the first [n] rows; for a negative [n], all rows but the
    last [|n|]. *)
Definition head {A} (s : Frame A) (n : Z) : Frame A :=
  if (0 <=? n)%Z then firstn (Z.to_nat n) s
  else firstn (length s - Z.to_nat (- n)) s.

(** The rows of [s] that carry label [k], in positional order. *)
Definition rows_at {A} (s : Frame A) (k : label) : Frame A :=
  filter (fun r => (fst r =? k)%Z) s.

(** [s.loc[keys]] for a list-like [keys]: for each key in turn, every row
    whose label equals it; a key that labels no row raises KeyError.  On a
    unique index this is one row per key; on an index with repeated labels
    each key brings all the rows sharing its label. *)
Fixpoint loc {A} (s : Frame A) (keys : list label) : result (Frame A) :=
  match keys with
  | [] => Ok []
  | k :: ks =>
      match rows_at s k with
      | [] => Raise KeyError
      | rows => rest <- loc s ks ;; Ok (rows ++ rest)
      end
  end.

(** [s.sum()] and [a.mean()].  numpy's mean of an empty array is nan; every
    use below is on a non-empty array or is followed by a call that raises
    on the empty one. *)
Definition sum (l : list Q) : Q := fold_right Qplus 0 l.
Definition mean (l : list Q) : Q := sum l / inject_Z (Z.of_nat (length l)).

(** Ascending sort of plain values, as [numpy.percentile] arranges them. *)
Lemma Qle_bool_total (x y : Q) : Qle_bool x y = true \/ Qle_bool y x = true.
Proof.
  rewrite !Qle_bool_iff.
  destruct (Qlt_le_dec x y) as [H | H];
    [left; apply Qlt_le_weak, H | right; exact H].
Qed.

Module QOrder <: TotalLeBool.
Definition t := Q.
Definition leb := Qle_bool.
Definition leb_total := Qle_bool_total.
End QOrder.

Module QSort := Sort QOrder.

(** [numpy.percentile(a, q)] with the default linear method: on the sorted
    values, the virtual index [(n - 1) * q / 100] is split into its floor
    and its fractional part [gamma], and the result interpolates between
    the two neighbouring order statistics.  A [q] outside [0, 100] raises
    ValueError and an empty array raises IndexError (numpy 1.22 and later;
    earlier releases answer nan with a warning). *)
Definition percentile (a : list Q) (q : Q) : result Q :=
  if negb (Qle_bool 0 q && Qle_bool q 100) then Raise ValueError
  else
    match QSort.sort a with
    | [] => Raise IndexError
    | (x0 :: _) as arr =>
        let n := length arr in
        let virtual_index := inject_Z (Z.of_nat (n - 1)) * (q / 100) in
        let previous_index := Z.to_nat (Qfloor virtual_index) in
        let next_index := Nat.min (previous_index + 1) (n - 1) in
        let gamma := virtual_index - inject_Z (Qfloor virtual_index) in
        let previous := nth previous_index arr x0 in
        let next := nth next_index arr x0 in
        Ok (previous + (next - previous) * gamma)
    end.

(** ** The library interface *)

Record LinearModel : Type := {
  coef0 : Q; coef1 : Q; coef2 : Q; intercept : Q
}.

Record well : Type := {
  f0 : Q; f1 : Q; f2 : Q; product : Q
}.

Definition DataFrame := Frame well.

Class Library : Type := {
  (** [pandas.core.sorting.nargsort(values, kind="quicksort",
      ascending=False)]: the positions of the values from the largest to
      the smallest; quicksort fixes no order among equal values. *)
  nargsort_desc : list Q -> list nat;
  (** What differs from one run of the script to the next: the entropy of
      the operating system and the state of numpy's global generator. *)
  entropy : Type;
  (** [numpy.random.Generator] states, seeded or from fresh entropy, and
      [rng.integers(0, high, size)], which returns the draws and steps the
      generator. *)
  rng : Type;
  seeded_rng : Z -> rng;
  fresh_rng : entropy -> rng;
  integers : rng -> nat -> nat -> list nat * rng;
  (** [RandomState(seed).permutation(n)] and the same on numpy's global
      generator, as scikit-learn's [check_random_state] picks them. *)
  seeded_permutation : Z -> nat -> list nat;
  global_permutation : entropy -> nat -> list nat;
  (** The least squares solver behind [LinearRegression().fit(X, y)]. *)
  lstsq : list (Q * Q * Q) -> list Q -> LinearModel;
  (** [numpy.sqrt]. *)
  sqrt : Q -> Q;
  (** [pandas.read_csv(path)] on the files of the run: the data rows of the
      file, to which pandas gives the index 0, 1, 2, ...  Every file read
      holds the four columns the script asks for. *)
  read_csv : string -> result (list well)
}.

(** [nargsort] orders by value: taking the values at the returned positions
    gives them from the largest to the smallest. *)
Definition descending (l : list Q) : Prop :=
  StronglySorted (fun x y => y <= x) l.

Class LibraryLaws (L : Library) : Prop := {
  nargsort_perm : forall v, Permutation (nargsort_desc v) (seq 0 (length v));
  nargsort_sorted : forall v,
    descending (map (fun i => nth i v 0) (nargsort_desc v));
  integers_length : forall g high size,
    length (fst (integers g high size)) = size;
  integers_bound : forall g high size, (0 < high)%nat ->
    Forall (fun i => (i < high)%nat) (fst (integers g high size));
  seeded_permutation_perm : forall seed n,
    Permutation (seeded_permutation seed n) (seq 0 n)
}.

Section Program.

Context {L : Library}.

(** [s.sort_values(ascending=False)]: the rows taken in the order given by
    [nargsort] on the values. *)
Definition sort_values_desc {A} (key : A -> Q) (s : Frame A)
  : result (Frame A) :=
  take s (nargsort_desc (map (fun r => key (snd r)) s)).

(** ** calculate_profit (lines 73-100) *)

Definition calculate_profit
    (target_valid predictions_valid : Series)
    (budget revenue_per_unit : Q)
    (n_wells_in_sample n_top_wells : Z) : result Q :=
  order <- sort_values_desc (fun v => v) predictions_valid ;;
  let selected_idx := index (head order n_top_wells) in
  sel <- loc target_valid selected_idx ;;
  let total_product := sum (values sel) in
  let revenue := total_product * revenue_per_unit in
  let profit := revenue - budget in
  Ok profit.

(** ** bootstrap_profit (lines 103-152) *)

Record Stats : Type := {
  mean_profit : Q;
  ci_low : Q;
  ci_high : Q;
  risk : Q;
  profits : list Q
}.

(** [numpy.random.default_rng(seed)]: a seed fixes the generator, [None]
    takes fresh entropy.  An integer seed goes to [SeedSequence], which
    takes any natural number and raises ValueError on a negative one. *)
Definition default_rng (seed : option Z) (e : entropy) : result rng :=
  match seed with
  | Some z => if (z <? 0)%Z then Raise ValueError else Ok (seeded_rng z)
  | None => Ok (fresh_rng e)
  end.

(** [rng.choice(a, size=size, replace=True)]: [size] positions drawn by
    [integers(0, len(a))], then [a] taken at them. *)
Definition choice (g : rng) (a : list label) (size : Z)
  : result (list label * rng) :=
  if (size <? 0)%Z then Raise ValueError
  else if (length a =? 0)%nat && negb (size =? 0)%Z then Raise ValueError
  else
    let '(idx, g') := integers g (length a) (Z.to_nat size) in
    sample <- take a idx ;;
    Ok (sample, g').

(** [for _ in range(n): body], threading the loop state. *)
Fixpoint for_range {S} (n : nat) (body : S -> result S) (s : S) : result S :=
  match n with
  | O => Ok s
  | Datatypes.S k => s' <- body s ;; for_range k body s'
  end.

(** One turn of the loop of lines 126-139; the state is the generator and
    the list [profits]. *)
Definition bootstrap_iteration
    (target_valid predictions_valid : Series) (indices : list label)
    (n_wells_in_sample n_top_wells : Z) (budget revenue_per_unit : Q)
    (st : rng * list Q) : result (rng * list Q) :=
  let '(g, profits) := st in
  '(sample_idx, g') <- choice g indices n_wells_in_sample ;;
  sample_target <- loc target_valid sample_idx ;;
  sample_pred <- loc predictions_valid sample_idx ;;
  profit <- calculate_profit sample_target sample_pred budget
              revenue_per_unit n_wells_in_sample n_top_wells ;;
  Ok (g', profits ++ [profit]).

Definition bootstrap_loop
    (target_valid predictions_valid : Series) (indices : list label)
    (n_iter : Z) (n_wells_in_sample n_top_wells : Z)
    (budget revenue_per_unit : Q) (g : rng) : result (rng * list Q) :=
  for_range (Z.to_nat n_iter)
    (bootstrap_iteration target_valid predictions_valid indices
       n_wells_in_sample n_top_wells budget revenue_per_unit)
    (g, []).

(** [(profits < 0)]: 1 where the profit is strictly negative. *)
Definition is_loss (p : Q) : Q := if Qle_bool 0 p then 0 else 1.

Definition bootstrap_profit (e : entropy)
    (target_valid predictions_valid : Series)
    (n_iter n_wells_in_sample n_top_wells : Z)
    (budget revenue_per_unit : Q) (random_state : Z) : result Stats :=
  g <- default_rng (Some random_state) e ;;
  let indices := index target_valid in
  '(_, profits) <- bootstrap_loop target_valid predictions_valid indices
                     n_iter n_wells_in_sample n_top_wells budget
                     revenue_per_unit g ;;
  let mean_profit := mean profits in
  ci_low <- percentile profits (5 # 2) ;;
  ci_high <- percentile profits (195 # 2) ;;
  let risk := mean (map is_loss profits) in
  Ok {| mean_profit := mean_profit; ci_low := ci_low; ci_high := ci_high;
        risk := risk; profits := profits |}.

(** ** load_region_data (lines 15-28) *)

(** The default index of a frame read from a file: 0, 1, 2, ... *)
Definition range_index {A} (rows : list A) : Frame A :=
  combine (map Z.of_nat (seq 0 (length rows))) rows.

(** The returned dict, in insertion order. *)
Definition load_region_data (path_region_0 path_region_1 path_region_2 : string)
  : result (list (string * DataFrame)) :=
  df0 <- read_csv path_region_0 ;;
  df1 <- read_csv path_region_1 ;;
  df2 <- read_csv path_region_2 ;;
  Ok [("0"%string, range_index df0); ("1"%string, range_index df1);
      ("2"%string, range_index df2)].

(** ** train_region (lines 31-70) *)

(** The largest seed of [numpy.random.RandomState]: [2**32 - 1]. *)
Definition MAX_SEED : Z := 4294967295.

(** scikit-learn's [check_random_state(seed).permutation(n)]: an integer
    seed makes a [RandomState(seed)], which raises ValueError on a seed
    outside [0, 2**32 - 1]; [None] is numpy's global generator. *)
Definition shuffle (seed : option Z) (e : entropy) (n : nat)
  : result (list nat) :=
  match seed with
  | Some z =>
      if ((z <? 0) || (MAX_SEED <? z))%Z then Raise ValueError
      else Ok (seeded_permutation z n)
  | None => Ok (global_permutation e n)
  end.

(** [train_test_split(features, target, test_size=..., random_state=...)]:
    [n_test = ceil(test_size * n_samples)], [n_train = n_samples - n_test],
    ValueError when the training set would be empty; the test rows are the
    first [n_test] positions of the shuffle and the training rows the next
    [n_train].  A seed out of range is a ValueError as well, whether
    scikit-learn meets it when it validates the arguments or when it makes
    the generator. *)
Definition train_test_split {A B} (e : entropy)
    (features : Frame A) (target : Frame B) (test_size : Q) (random_state : Z)
  : result (Frame A * Frame A * Frame B * Frame B) :=
  let n_samples := length features in
  let n_test :=
    Z.to_nat (Qceiling (test_size * inject_Z (Z.of_nat n_samples))) in
  let n_train := (n_samples - n_test)%nat in
  if (n_train =? 0)%nat then Raise ValueError
  else
    permutation <- shuffle (Some random_state) e n_samples ;;
    let ind_test := firstn n_test permutation in
    let ind_train := firstn n_train (skipn n_test permutation) in
    features_train <- take features ind_train ;;
    features_valid <- take features ind_test ;;
    target_train <- take target ind_train ;;
    target_valid <- take target ind_test ;;
    Ok (features_train, features_valid, target_train, target_valid).

(** [model.predict] on one row of features. *)
Definition predict (m : LinearModel) (x : Q * Q * Q) : Q :=
  let '(x0, x1, x2) := x in
  intercept m + coef0 m * x0 + coef1 m * x1 + coef2 m * x2.

Definition squared_errors (y_true y_pred : list Q) : list Q :=
  map (fun tp => (fst tp - snd tp) * (fst tp - snd tp)) (combine y_true y_pred).

(** [mean_squared_error(y_true, y_pred, squared=False)], in a scikit-learn
    that takes the argument [squared]. *)
Definition root_mean_squared_error (y_true y_pred : list Q) : Q :=
  sqrt (mean (squared_errors y_true y_pred)).

(** [r2_score(y_true, y_pred)]: nan ([None]) on fewer than two samples;
    1 when the residuals vanish, 0 when only the total variation does. *)
Definition r2_score (y_true y_pred : list Q) : option Q :=
  if (length y_pred <? 2)%nat then None
  else
    let numerator := sum (squared_errors y_true y_pred) in
    let y_mean := mean y_true in
    let denominator :=
      sum (map (fun t => (t - y_mean) * (t - y_mean)) y_true) in
    if Qeq_bool numerator 0 then Some 1
    else if Qeq_bool denominator 0 then Some 0
    else Some (1 - numerator / denominator).

Record TrainResult : Type := {
  region : string;
  model : LinearModel;
  features_valid : Frame (Q * Q * Q);
  target_valid : Series;
  preds_valid : Series;
  rmse : Q;
  r2 : option Q;
  mean_pred : Q
}.

Definition select_features (df : DataFrame) : Frame (Q * Q * Q) :=
  map (fun r => (fst r, (f0 (snd r), f1 (snd r), f2 (snd r)))) df.

Definition select_product (df : DataFrame) : Series :=
  map (fun r => (fst r, product (snd r))) df.

Definition train_region (e : entropy) (df : DataFrame) (region_name : string)
    (random_state : Z) : result TrainResult :=
  let features := select_features df in
  let target := select_product df in
  '(features_train, features_valid, target_train, target_valid) <-
     train_test_split e features target (1 # 4) random_state ;;
  let model := lstsq (values features_train) (values target_train) in
  let preds_valid :=
    combine (index target_valid) (map (predict model) (values features_valid)) in
  let rmse := root_mean_squared_error (values target_valid) (values preds_valid) in
  let r2 := r2_score (values target_valid) (values preds_valid) in
  let mean_pred := mean (values preds_valid) in
  Ok {| region := region_name; model := model;
        features_valid := features_valid; target_valid := target_valid;
        preds_valid := preds_valid; rmse := rmse; r2 := r2;
        mean_pred := mean_pred |}.

(** ** main (lines 155-194) *)

(** One row of the summary table. *)
Record SummaryRow : Type := {
  Region : string;
  Beneficio_promedio : Q;
  IC95_low : Q;
  IC95_high : Q;
  Riesgo_de_perdida : Q
}.

(** [numpy.round(x, 2)]: to the nearest hundredth, halves to the even one. *)
Definition round_half_even (x : Q) : Z :=
  let f := Qfloor x in
  let r := x - inject_Z f in
  match Qcompare r (1 # 2) with
  | Lt => f
  | Gt => (f + 1)%Z
  | Eq => if Z.even f then f else (f + 1)%Z
  end.

Definition round2 (x : Q) : Q := inject_Z (round_half_even (x * 100)) / 100.

Definition round_row (r : SummaryRow) : SummaryRow :=
  {| Region := Region r;
     Beneficio_promedio := round2 (Beneficio_promedio r);
     IC95_low := round2 (IC95_low r);
     IC95_high := round2 (IC95_high r);
     Riesgo_de_perdida := round2 (Riesgo_de_perdida r) |}.

Definition summary_row (res : TrainResult) (stats : Stats) : SummaryRow :=
  {| Region := region res;
     Beneficio_promedio := mean_profit stats;
     IC95_low := ci_low stats;
     IC95_high := ci_high stats;
     Riesgo_de_perdida := risk stats * 100 |}.

(** Line 194: [summary_df.round(2).sort_values("Beneficio promedio (USD)",
    ascending=False)], the table that is printed. *)
Definition final_report (summary_rows : list SummaryRow)
  : result (Frame SummaryRow) :=
  sort_values_desc Beneficio_promedio (range_index (map round_row summary_rows)).

(** What a run prints: the training metrics of each region, in the order
    trained, and the final table.  The bootstrap statistics behind the rows
    are kept for the statements below. *)
Record Output : Type := {
  region_results : list TrainResult;
  bootstrap_stats : list Stats;
  report : Frame SummaryRow
}.

Definition main (e : entropy) : result Output :=
  data_by_region <- load_region_data "Data/geo_data_0.csv"
                      "Data/geo_data_1.csv" "Data/geo_data_2.csv" ;;
  region_results <-
    mapM (fun item => train_region e (snd item) (fst item) RANDOM_STATE)
         data_by_region ;;
  analysed <-
    mapM (fun res =>
            stats <- bootstrap_profit e (target_valid res) (preds_valid res)
                       N_BOOTSTRAP_ITER N_WELLS_PER_REGION N_TOP_WELLS BUDGET
                       REVENUE_PER_THOUSAND_BARRELS RANDOM_STATE ;;
            Ok (stats, summary_row res stats))
         region_results ;;
  let summary_rows := map snd analysed in
  table <- final_report summary_rows ;;
  Ok {| region_results := region_results; bootstrap_stats := map fst analysed;
        report := table |}.

End Program.

(** ** An executable instance of the library

    A small instance of [Library] on which the definitions run: a merge sort
    for [nargsort], a linear congruential generator, a rotation for the
    shuffle, the constant model at the mean of the targets for the solver,
    an integer square root on thousandths, and three short files. *)

Module Toy.

Module DescOrder <: TotalLeBool.
Definition t := (Q * nat)%type.
Definition leb (a b : t) := Qle_bool (fst b) (fst a).
Definition leb_total (a b : t) : leb a b = true \/ leb b a = true :=
  Qle_bool_total (fst b) (fst a).
End DescOrder.

Module DescSort := Sort DescOrder.

Definition merge_nargsort (v : list Q) : list nat :=
  map snd (DescSort.sort (combine v (seq 0 (length v)))).

Definition lcg_next (g : Z) : Z :=
  ((g * 6364136223846793005 + 1442695040888963407) mod 2 ^ 64)%Z.

Fixpoint lcg_integers (g : Z) (high size : nat) : list nat * Z :=
  match size with
  | O => ([], g)
  | S k =>
      let g' := lcg_next g in
      let rest := lcg_integers g' high k in
      (Z.to_nat ((g' / 2 ^ 33) mod Z.of_nat high) :: fst rest, snd rest)
  end.

Definition rotation (seed : Z) (n : nat) : list nat :=
  let k := Z.to_nat (seed mod Z.of_nat n) in
  skipn k (seq 0 n) ++ firstn k (seq 0 n).

Definition mean_model (X : list (Q * Q * Q)) (y : list Q) : LinearModel :=
  {| coef0 := 0; coef1 := 0; coef2 := 0; intercept := Qred (mean y) |}.

Definition milli_sqrt (x : Q) : Q :=
  inject_Z (Z.sqrt (Qfloor (x * 1000000))) / 1000.

Definition data (base : Z) : list well :=
  map (fun i => {| f0 := inject_Z i; f1 := 1; f2 := inject_Z (i * i);
                   product := inject_Z (base + 10 * i) |})
      [0; 1; 2; 3; 4; 5; 6; 7]%Z.

Definition files (path : string) : result (list well) :=
  if String.eqb path "Data/geo_data_0.csv" then Ok (data 90)
  else if String.eqb path "Data/geo_data_1.csv" then Ok (data 60)
  else if String.eqb path "Data/geo_data_2.csv" then Ok (data 95)
  else Raise OSError.

Definition library : Library := {|
  nargsort_desc := merge_nargsort;
  entropy := Z;
  rng := Z;
  seeded_rng := fun seed => seed;
  fresh_rng := fun e => e;
  integers := lcg_integers;
  seeded_permutation := rotation;
  global_permutation := rotation;
  lstsq := mean_model;
  sqrt := milli_sqrt;
  read_csv := files
|}.

End Toy.

(** The same instance on other files. *)
Definition toy_library_on (files : string -> result (list well)) : Library := {|
  nargsort_desc := Toy.merge_nargsort;
  entropy := Z;
  rng := Z;
  seeded_rng := fun seed => seed;
  fresh_rng := fun e => e;
  integers := Toy.lcg_integers;
  seeded_permutation := Toy.rotation;
  global_permutation := Toy.rotation;
  lstsq := Toy.mean_model;
  sqrt := Toy.milli_sqrt;
  read_csv := files
|}.

(** No file at all, and a second file of a single row. *)
Definition no_files (path : string) : result (list well) := Raise OSError.

Definition short_second_file (path : string) : result (list well) :=
  if String.eqb path "Data/geo_data_1.csv" then Ok (firstn 1 (Toy.data 60))
  else Toy.files path.

(** * Vocabulary of the statements *)

(** A sample in which the well labelled 0 was drawn twice. *)
Definition twice_target : Series := [(0%Z, 10); (0%Z, 10)].
Definition twice_pred : Series := [(0%Z, 5); (0%Z, 5)].

(** Three wells under distinct labels, with their predictions. *)
Definition three_target : Series := [(0%Z, 10); (1%Z, 20); (2%Z, 30)].
Definition three_pred : Series := [(0%Z, 5); (1%Z, 7); (2%Z, 6)].

Definition ascending (l : list Q) : Prop := StronglySorted Qle l.

(** The interpolation of [percentile] on an already sorted array. *)
Definition interpolate (arr : list Q) (x0 : Q) (q : Q) : Q :=
  let n := length arr in
  let virtual_index := inject_Z (Z.of_nat (n - 1)) * (q / 100) in
  let previous_index := Z.to_nat (Qfloor virtual_index) in
  let next_index := Nat.min (previous_index + 1) (n - 1) in
  let gamma := virtual_index - inject_Z (Qfloor virtual_index) in
  let previous := nth previous_index arr x0 in
  let next := nth next_index arr x0 in
  previous + (next - previous) * gamma.

(** Ranks: how many values of a list satisfy a test, for the tests
    "strictly below [v]" and "at most [v]". *)
Definition count (f : Q -> bool) (l : list Q) : nat := length (filter f l).
Definition below (v x : Q) : bool := negb (Qle_bool v x).
Definition upto (v x : Q) : bool := Qle_bool x v.

(** The position, in the sorted array of [n] values, of the order statistic
    at or just before the [q]-th percentile: the whole part of the virtual
    index [(n - 1) * q / 100]. *)
Definition rank_of (n : nat) (q : Q) : nat :=
  Z.to_nat (Qfloor (inject_Z (Z.of_nat (n - 1)) * (q / 100))).

(** What [train_region] reads of a row of the frame, and the error of a
    model on it. *)
Definition features_of (r : label * well) : Q * Q * Q :=
  (f0 (snd r), f1 (snd r), f2 (snd r)).

Definition residual (m : LinearModel) (r : label * well) : Q :=
  product (snd r) - predict m (features_of r).

(** The profits strictly below zero. *)
Definition losses (l : list Q) : list Q :=
  filter (fun p => negb (Qle_bool 0 p)) l.

(** C3 as stated, for a given limit on the risk: the first row of the
    table meets the limit and no row that meets it has a larger mean profit
    (whenever some row meets the limit at all). *)
Definition first_is_best_within_risk (limit : Q) (table : Frame SummaryRow)
  : Prop :=
  forall top,
    hd_error (values table) = Some top ->
    (exists r, In r (values table) /\ Riesgo_de_perdida r <= limit) ->
    Riesgo_de_perdida top <= limit /\
    forall r, In r (values table) -> Riesgo_de_perdida r <= limit ->
              Beneficio_promedio r <= Beneficio_promedio top.

(** Two regions: the first earns more on average and loses money in 8% of
    the resamples, the second earns less and loses in 1% of them. *)
Definition risky_and_safe : list SummaryRow :=
  [ {| Region := "0"; Beneficio_promedio := 3000000;
       IC95_low := -500000; IC95_high := 6000000;
       Riesgo_de_perdida := 8 |};
    {| Region := "1"; Beneficio_promedio := 2000000;
       IC95_low := 100000; IC95_high := 4000000;
       Riesgo_de_perdida := 1 |} ].

Section Vocabulary.

Context {L : Library}.

(** The positions returned by [n] successive calls of
    [integers(0, high, size)], and the generator they leave. *)
Fixpoint draws (g : rng) (high size n : nat) : list (list nat) :=
  match n with
  | O => []
  | S k =>
      fst (integers g high size)
        :: draws (snd (integers g high size)) high size k
  end.

Fixpoint advance (g : rng) (high size n : nat) : rng :=
  match n with
  | O => g
  | S k => advance (snd (integers g high size)) high size k
  end.

(** The labels found at drawn positions. *)
Definition labels_at (indices : list label) (positions : list nat)
  : list label :=
  map (fun i => nth i indices 0%Z) positions.

(** The profit of one resample, given the labels drawn for it. *)
Definition profit_of_sample (target_valid predictions_valid : Series)
    (budget revenue_per_unit : Q) (n_wells_in_sample n_top_wells : Z)
    (sample_idx : list label) : result Q :=
  sample_target <- loc target_valid sample_idx ;;
  sample_pred <- loc predictions_valid sample_idx ;;
  calculate_profit sample_target sample_pred budget revenue_per_unit
    n_wells_in_sample n_top_wells.

(** The three files of the defaults of [load_region_data] are readable and
    hold two rows or more each. *)
Definition files_loaded (rows0 rows1 rows2 : list well) : Prop :=
  read_csv "Data/geo_data_0.csv" = Ok rows0 /\
  read_csv "Data/geo_data_1.csv" = Ok rows1 /\
  read_csv "Data/geo_data_2.csv" = Ok rows2 /\
  (2 <= length rows0)%nat /\ (2 <= length rows1)%nat /\
  (2 <= length rows2)%nat.

(** The call of [bootstrap_profit] made by [main], with its defaults. *)
Definition bootstrap_with_defaults (e : entropy) (res : TrainResult)
  : result Stats :=
  bootstrap_profit e (target_valid res) (preds_valid res)
    N_BOOTSTRAP_ITER N_WELLS_PER_REGION N_TOP_WELLS BUDGET
    REVENUE_PER_THOUSAND_BARRELS RANDOM_STATE.

End Vocabulary.

(** * Properties *)

(** ** The error monad *)

Lemma bind_Ok {A B} (r : result A) (k : A -> result B) (b : B) :
  bind r k = Ok b -> exists a, r = Ok a /\ k a = Ok b.
Proof.
  destruct r as [a | e]; simpl; intros H; [exists a; auto | discriminate].
Qed.

(** Splits a hypothesis [x <- r ;; k = Ok b] into its two halves. *)
Ltac bind_inv H :=
  let a := fresh "a" in
  let Ha := fresh "Ha" in
  apply bind_Ok in H; destruct H as (a & Ha & H).

Tactic Notation "invert_bind" hyp(H) "as" ident(a) ident(Ha) :=
  apply bind_Ok in H; destruct H as (a & Ha & H).

(** ** [take] *)

Lemma take_Forall2 {A} (l : list A) ps r :
  take l ps = Ok r -> Forall2 (fun i a => nth_error l i = Some a) ps r.
Proof.
  revert r. induction ps as [| i ps IH]; simpl; intros r H.
  - injection H as <-. constructor.
  - destruct (nth_error l i) as [a |] eqn:Hi; [| discriminate].
    bind_inv H. injection H as <-. constructor; auto.
Qed.

Lemma Forall2_take {A} (l : list A) ps r :
  Forall2 (fun i a => nth_error l i = Some a) ps r -> take l ps = Ok r.
Proof.
  induction 1 as [| i a ps r Hi _ IH]; simpl; [reflexivity |].
  rewrite Hi, IH. reflexivity.
Qed.

Lemma take_total {A} (l : list A) ps :
  Forall (fun i => (i < length l)%nat) ps -> exists r, take l ps = Ok r.
Proof.
  induction 1 as [| i ps Hi _ [r IH]]; simpl.
  - exists []. reflexivity.
  - destruct (nth_error l i) as [a |] eqn:E.
    + rewrite IH. exists (a :: r). reflexivity.
    + apply nth_error_None in E. lia.
Qed.

Lemma take_map {A B} (f : A -> B) (l : list A) ps r :
  take l ps = Ok r -> take (map f l) ps = Ok (map f r).
Proof.
  intros H. apply Forall2_take. apply take_Forall2 in H.
  induction H as [| i a ps r Hi _ IH]; simpl; constructor; auto.
  rewrite nth_error_map, Hi. reflexivity.
Qed.

Lemma take_map_eq {A B} (f : A -> B) (l : list A) ps :
  take (map f l) ps = (r <- take l ps ;; Ok (map f r)).
Proof.
  induction ps as [| i ps IH]; simpl; [reflexivity |].
  rewrite nth_error_map. destruct (nth_error l i) as [a |]; simpl;
    [| reflexivity].
  rewrite IH. destruct (take l ps); reflexivity.
Qed.

Lemma take_firstn {A} (l : list A) ps r k :
  take l ps = Ok r -> take l (firstn k ps) = Ok (firstn k r).
Proof.
  intros H. apply Forall2_take. apply take_Forall2 in H.
  revert k. induction H; intros [| k]; simpl; constructor; auto.
Qed.

Lemma take_skipn {A} (l : list A) ps r k :
  take l ps = Ok r -> take l (skipn k ps) = Ok (skipn k r).
Proof.
  intros H. apply Forall2_take. apply take_Forall2 in H.
  revert k. induction H; intros [| k]; simpl; try constructor; auto.
Qed.

Lemma take_seq_from {A} (pre l : list A) :
  take (pre ++ l) (seq (length pre) (length l)) = Ok l.
Proof.
  revert pre. induction l as [| a l IH]; intros pre; simpl; [reflexivity |].
  rewrite nth_error_app2, Nat.sub_diag by lia. simpl.
  specialize (IH (pre ++ [a])).
  rewrite <- app_assoc, length_app in IH. simpl in IH.
  rewrite Nat.add_1_r in IH. rewrite IH. reflexivity.
Qed.

Lemma take_seq {A} (l : list A) : take l (seq 0 (length l)) = Ok l.
Proof. exact (take_seq_from [] l). Qed.

Lemma take_Permutation {A} (l : list A) ps ps' :
  Permutation ps ps' -> forall r, take l ps = Ok r ->
  exists r', take l ps' = Ok r' /\ Permutation r r'.
Proof.
  induction 1 as [| i ps ps' _ IH | i j ps | ps ps' ps'' _ IH1 _ IH2];
    intros r H.
  - exists r. auto.
  - simpl in *. destruct (nth_error l i) as [a |]; [| discriminate].
    bind_inv H. injection H as <-.
    destruct (IH _ Ha) as (r' & -> & Hp). exists (a :: r'). auto.
  - simpl in *.
    destruct (nth_error l j) as [b |]; [| discriminate].
    destruct (nth_error l i) as [a |]; [| discriminate].
    simpl in H. bind_inv H. injection H as <-.
    bind_inv Ha. injection Ha as <-.
    rewrite Ha0. simpl. eexists. split; [reflexivity | apply perm_swap].
  - destruct (IH1 _ H) as (r' & H' & Hp).
    destruct (IH2 _ H') as (r'' & H'' & Hp').
    exists r''. split; [exact H'' | eapply Permutation_trans; eauto].
Qed.

(** Taking a frame at a permutation of its positions permutes its rows. *)
Lemma take_perm {A} (l : list A) ps :
  Permutation ps (seq 0 (length l)) ->
  exists r, take l ps = Ok r /\ Permutation l r.
Proof.
  intros Hp.
  destruct (take_Permutation l (Permutation_sym Hp) (take_seq l))
    as (r & Hr & Hperm).
  exists r. auto.
Qed.

Lemma take_nth {A} (d : A) (l : list A) ps r :
  take l ps = Ok r -> r = map (fun i => nth i l d) ps.
Proof.
  intros H. apply take_Forall2 in H.
  induction H as [| i a ps r Hi _ IH]; simpl; [reflexivity |].
  rewrite (nth_error_nth _ _ d Hi), IH. reflexivity.
Qed.

(** ** [sum] *)

Lemma sum_Permutation l1 l2 : Permutation l1 l2 -> sum l1 == sum l2.
Proof.
  induction 1 as [| x l1 l2 _ IH | x y l | l1 l2 l3 _ IH1 _ IH2]; simpl.
  - reflexivity.
  - rewrite IH. reflexivity.
  - ring.
  - rewrite IH1. exact IH2.
Qed.

(** ** [loc] *)

Lemma rows_at_index {A} (s : Frame A) k :
  index (rows_at s k) = filter (fun l => (l =? k)%Z) (index s).
Proof.
  unfold index, rows_at. induction s as [| [l a] s IH]; simpl; [reflexivity |].
  destruct (l =? k)%Z; simpl; rewrite IH; reflexivity.
Qed.

Lemma rows_at_nil {A} (s : Frame A) k : rows_at s k = [] <-> ~ In k (index s).
Proof.
  unfold rows_at, index. induction s as [| [l a] s IH]; simpl.
  - tauto.
  - destruct (Z.eqb_spec l k) as [-> | Hne].
    + split; [discriminate | tauto].
    + rewrite IH. tauto.
Qed.

(** [loc] returns, key after key, all the rows under that key. *)
Lemma loc_flat_map {A} (s : Frame A) keys r :
  loc s keys = Ok r -> r = flat_map (rows_at s) keys.
Proof.
  revert r. induction keys as [| k ks IH]; simpl; intros r H.
  - injection H as <-. reflexivity.
  - destruct (rows_at s k) as [| x rows]; [discriminate |].
    bind_inv H. injection H as <-. rewrite (IH _ Ha). reflexivity.
Qed.

Lemma loc_keys {A} (s : Frame A) keys r :
  loc s keys = Ok r -> incl keys (index s).
Proof.
  revert r. induction keys as [| k ks IH]; simpl; intros r H x Hx;
    [contradiction |].
  destruct (rows_at s k) as [| y rows] eqn:E; [discriminate |].
  bind_inv H. destruct Hx as [<- | Hx]; [| eapply IH; eauto].
  destruct (in_dec Z.eq_dec k (index s)) as [Hin | Hnot]; [exact Hin |].
  apply rows_at_nil in Hnot. congruence.
Qed.

Lemma loc_total {A} (s : Frame A) keys :
  incl keys (index s) -> loc s keys = Ok (flat_map (rows_at s) keys).
Proof.
  induction keys as [| k ks IH]; simpl; intros Hin; [reflexivity |].
  destruct (rows_at s k) as [| y rows] eqn:E.
  - apply rows_at_nil in E. exfalso. apply E, Hin. left. reflexivity.
  - rewrite IH by (intros x Hx; apply Hin; right; exact Hx). reflexivity.
Qed.

Lemma flat_map_rows_at_index {A} (s : Frame A) keys :
  index (flat_map (rows_at s) keys)
  = flat_map (fun k => filter (fun l => (l =? k)%Z) (index s)) keys.
Proof.
  unfold index at 1. rewrite flat_map_concat_map, concat_map, map_map.
  rewrite flat_map_concat_map. f_equal. apply map_ext. intros k.
  apply rows_at_index.
Qed.

(** Two frames with the same index answer [loc] with the same index. *)
Lemma loc_same_index {A B} (s : Frame A) (t : Frame B) keys r :
  index s = index t -> loc s keys = Ok r ->
  exists r', loc t keys = Ok r' /\ index r' = index r.
Proof.
  intros Hidx H.
  pose proof (loc_keys _ _ H) as Hin. rewrite Hidx in Hin.
  exists (flat_map (rows_at t) keys). split; [apply loc_total, Hin |].
  rewrite (loc_flat_map _ _ H), !flat_map_rows_at_index, Hidx. reflexivity.
Qed.

(** On a unique index a key selects at most one row. *)
Lemma rows_at_unique {A} (s : Frame A) k :
  NoDup (index s) -> (length (rows_at s k) <= 1)%nat.
Proof.
  unfold rows_at, index. induction s as [| [l a] s IH]; simpl; intros Hnd;
    [lia |].
  inversion Hnd as [| ? ? Hnotin Hnd']; subst.
  destruct (Z.eqb_spec l k) as [-> | Hne]; [| auto].
  simpl. fold (rows_at s k).
  destruct (rows_at s k) eqn:E; [simpl; lia |].
  exfalso. assert (Hnil : rows_at s k <> []) by congruence.
  apply Hnil, rows_at_nil. exact Hnotin.
Qed.

Lemma loc_unique_length {A} (s : Frame A) keys r :
  NoDup (index s) -> loc s keys = Ok r -> length r = length keys.
Proof.
  intros Hnd. revert r. induction keys as [| k ks IH]; simpl; intros r H.
  - injection H as <-. reflexivity.
  - pose proof (rows_at_unique s k Hnd) as Hle.
    destruct (rows_at s k) as [| y rows] eqn:E; [discriminate |].
    bind_inv H. injection H as <-.
    destruct rows; simpl in *; [| lia].
    rewrite (IH _ Ha). reflexivity.
Qed.

(** ** [sort_values] under the laws of [nargsort] *)

Section Sorting.

Context {L : Library} {laws : LibraryLaws L}.

Lemma sort_values_desc_ok {A} (key : A -> Q) (s : Frame A) :
  exists sorted,
    sort_values_desc key s = Ok sorted /\
    Permutation s sorted /\
    descending (map (fun r => key (snd r)) sorted).
Proof.
  unfold sort_values_desc.
  set (v := map (fun r => key (snd r)) s).
  pose proof (nargsort_perm v) as Hp.
  assert (Hlen : length v = length s) by (unfold v; apply length_map).
  rewrite Hlen in Hp.
  destruct (take_perm s Hp) as (sorted & Htake & Hperm).
  exists sorted. repeat split; auto.
  pose proof (take_map (fun r => key (snd r)) _ _ Htake) as Hv.
  fold v in Hv. rewrite (take_nth 0 _ _ Hv).
  apply nargsort_sorted.
Qed.

End Sorting.

(** ** The executable instance satisfies the laws *)

Module ToyLaws.

Lemma combine_seq_nth (v : list Q) k q i :
  In (q, i) (combine v (seq k (length v))) ->
  (k <= i)%nat /\ nth_error v (i - k) = Some q.
Proof.
  revert k. induction v as [| x v IH]; simpl; intros k H; [contradiction |].
  destruct H as [H | H].
  - injection H as -> ->. rewrite Nat.sub_diag. auto.
  - apply IH in H. destruct H as [Hle Hn]. split; [lia |].
    replace (i - k)%nat with (S (i - S k)) by lia. exact Hn.
Qed.

Lemma map_snd_combine_seq (v : list Q) k :
  map snd (combine v (seq k (length v))) = seq k (length v).
Proof.
  revert k. induction v as [| x v IH]; simpl; intros k; [reflexivity |].
  rewrite IH. reflexivity.
Qed.

Lemma merge_nargsort_perm v :
  Permutation (Toy.merge_nargsort v) (seq 0 (length v)).
Proof.
  unfold Toy.merge_nargsort.
  rewrite <- (map_snd_combine_seq v 0) at 2.
  apply Permutation_map, Permutation_sym, Toy.DescSort.Permuted_sort.
Qed.

Lemma desc_leb_trans :
  Transitive (fun a b => is_true (Toy.DescOrder.leb a b)).
Proof.
  intros a b c. unfold Toy.DescOrder.leb, is_true.
  rewrite !Qle_bool_iff. intros H1 H2. eapply Qle_trans; eauto.
Qed.

Lemma merge_nargsort_sorted v :
  descending (map (fun i => nth i v 0) (Toy.merge_nargsort v)).
Proof.
  unfold Toy.merge_nargsort, descending.
  set (l := combine v (seq 0 (length v))).
  assert (Hin : forall p, In p (Toy.DescSort.sort l) -> nth (snd p) v 0 = fst p).
  { intros [q i] Hp. simpl.
    apply (Permutation_in _ (Permutation_sym (Toy.DescSort.Permuted_sort l))) in Hp.
    apply combine_seq_nth in Hp. destruct Hp as [_ Hn].
    rewrite Nat.sub_0_r in Hn. apply nth_error_nth. exact Hn. }
  pose proof (Toy.DescSort.StronglySorted_sort l desc_leb_trans) as Hs.
  induction Hs as [| p s _ IH Hall]; simpl; constructor.
  - apply IH. intros p' Hp'. apply Hin. right. exact Hp'.
  - rewrite Forall_forall. intros x Hx.
    rewrite map_map in Hx. apply in_map_iff in Hx.
    destruct Hx as (p' & <- & Hp').
    rewrite Forall_forall in Hall. specialize (Hall _ Hp').
    unfold Toy.DescOrder.leb, is_true in Hall. rewrite Qle_bool_iff in Hall.
    rewrite (Hin p) by (left; reflexivity).
    rewrite (Hin p') by (right; exact Hp'). exact Hall.
Qed.

Lemma lcg_integers_length g high size :
  length (fst (Toy.lcg_integers g high size)) = size.
Proof.
  revert g. induction size as [| k IH]; intros g; simpl; [reflexivity |].
  rewrite IH. reflexivity.
Qed.

Lemma lcg_integers_bound g high size :
  (0 < high)%nat ->
  Forall (fun i => (i < high)%nat) (fst (Toy.lcg_integers g high size)).
Proof.
  intros Hpos. revert g. induction size as [| k IH]; intros g; simpl;
    constructor; [| apply IH].
  pose proof (Z.mod_pos_bound (Toy.lcg_next g / 2 ^ 33) (Z.of_nat high)
                ltac:(lia)) as Hb.
  lia.
Qed.

Lemma rotation_perm seed n : Permutation (Toy.rotation seed n) (seq 0 n).
Proof.
  unfold Toy.rotation.
  set (k := Z.to_nat (seed mod Z.of_nat n)).
  rewrite <- (firstn_skipn k (seq 0 n)) at 3.
  apply Permutation_app_comm.
Qed.

Lemma laws : LibraryLaws Toy.library.
Proof.
  constructor.
  - exact merge_nargsort_perm.
  - exact merge_nargsort_sorted.
  - exact lcg_integers_length.
  - exact lcg_integers_bound.
  - exact rotation_perm.
Qed.

End ToyLaws.

(** ** calculate_profit *)

Section CalculateProfit.

Context {L : Library} {laws : LibraryLaws L}.

Lemma sort_twice_pred :
  sort_values_desc (fun v => v) twice_pred = Ok twice_pred.
Proof.
  unfold sort_values_desc, twice_pred. simpl map.
  pose proof (nargsort_perm [5; 5]) as Hp. simpl in Hp.
  apply Permutation_sym, Permutation_length_2_inv in Hp.
  destruct Hp as [-> | ->]; reflexivity.
Qed.

(** C1, at a sample with a repeated label: asked for the single best well,
    [calculate_profit] adds up both rows stored under its label, so the
    revenue counts two production values (20) where the one selected well
    produced 10. *)
Theorem calculate_profit_repeated_label (n_wells_in_sample : Z) :
  calculate_profit twice_target twice_pred 0 1 n_wells_in_sample 1 = Ok 20 /\
  ~ 20 == sum [10] * 1 - 0.
Proof.
  split.
  - unfold calculate_profit. rewrite sort_twice_pred. reflexivity.
  - intros H. vm_compute in H. discriminate.
Qed.

(** C10, at the same sample with [n_top_wells] equal to the number of
    wells: no error is raised, but each of the two selected labels brings
    both rows, so four values are added (40) where the whole sample
    produced 20. *)
Theorem calculate_profit_boundary_repeated_label (n_wells_in_sample : Z) :
  calculate_profit twice_target twice_pred 0 1 n_wells_in_sample 2 = Ok 40 /\
  ~ 40 == sum (values twice_target) * 1 - 0.
Proof.
  split.
  - unfold calculate_profit. rewrite sort_twice_pred. reflexivity.
  - intros H. vm_compute in H. discriminate.
Qed.

(** C8: the profit does not depend on [n_wells_in_sample]. *)
Theorem calculate_profit_ignores_n_wells_in_sample
    (target_valid predictions_valid : Series) (budget revenue_per_unit : Q)
    (n_top_wells n1 n2 : Z) :
  calculate_profit target_valid predictions_valid budget revenue_per_unit
    n1 n_top_wells
  = calculate_profit target_valid predictions_valid budget revenue_per_unit
      n2 n_top_wells.
Proof. reflexivity. Qed.

End CalculateProfit.

(** ** [percentile] *)

Lemma sort_ascending a : ascending (QSort.sort a).
Proof.
  assert (Ht : Transitive (fun x y => is_true (QOrder.leb x y))).
  { intros x y z. unfold QOrder.leb, is_true. rewrite !Qle_bool_iff.
    apply Qle_trans. }
  pose proof (QSort.StronglySorted_sort a Ht) as Hs.
  unfold ascending.
  induction Hs as [| x l _ IH Hall]; constructor; [exact IH |].
  eapply Forall_impl; [| exact Hall].
  intros y Hy. apply Qle_bool_iff. exact Hy.
Qed.

Lemma ascending_nth l d i j :
  ascending l -> (i <= j < length l)%nat -> nth i l d <= nth j l d.
Proof.
  intros Hs. revert i j.
  induction Hs as [| x l _ IH Hall]; intros i j Hij; simpl in Hij; [lia |].
  destruct i as [| i], j as [| j]; simpl; try lia.
  - apply Qle_refl.
  - rewrite Forall_forall in Hall. apply Hall, nth_In. lia.
  - apply IH. lia.
Qed.

Lemma percentile_inv a q v :
  percentile a q = Ok v ->
  0 <= q <= 100 /\
  exists x0 rest, QSort.sort a = x0 :: rest /\ v = interpolate (x0 :: rest) x0 q.
Proof.
  unfold percentile.
  destruct (Qle_bool 0 q) eqn:H0; simpl; [| discriminate].
  destruct (Qle_bool q 100) eqn:H1; simpl; [| discriminate].
  apply Qle_bool_iff in H0, H1.
  destruct (QSort.sort a) as [| x0 rest]; [discriminate |].
  intros H. injection H as <-. split; [split; assumption |].
  exists x0, rest. split; reflexivity.
Qed.

Lemma percentile_nonempty a q :
  a <> [] -> 0 <= q <= 100 -> exists v, percentile a q = Ok v.
Proof.
  intros Ha [H0 H1]. unfold percentile.
  apply Qle_bool_iff in H0, H1. rewrite H0, H1. simpl.
  destruct (QSort.sort a) as [| x0 rest] eqn:E; [| eexists; reflexivity].
  exfalso. apply Ha.
  pose proof (QSort.Permuted_sort a) as Hp. rewrite E in Hp.
  apply Permutation_sym, Permutation_nil in Hp. exact Hp.
Qed.

Lemma percentile_Ok_nonempty a q v : percentile a q = Ok v -> a <> [].
Proof.
  intros H Ha. subst a. unfold percentile in H.
  destruct (negb (Qle_bool 0 q && Qle_bool q 100)); [discriminate |].
  vm_compute in H. discriminate.
Qed.

(** The virtual index lies between the first and the last position. *)
Lemma virtual_index_range (m : nat) q :
  0 <= q <= 100 ->
  0 <= inject_Z (Z.of_nat m) * (q / 100) <= inject_Z (Z.of_nat m).
Proof.
  intros [H0 H1]. set (h := inject_Z (Z.of_nat m) * (q / 100)).
  assert (Hm : 0 <= inject_Z (Z.of_nat m)).
  { change 0 with (inject_Z 0). rewrite <- Zle_Qle. lia. }
  assert (Hq : 0 <= q / 100 <= 1).
  { split.
    - apply Qle_shift_div_l; [reflexivity | lra].
    - apply Qle_shift_div_r; [reflexivity | lra]. }
  unfold h. split.
  - apply Qmult_le_0_compat; tauto.
  - rewrite <- (Qmult_1_r (inject_Z (Z.of_nat m))) at 2.
    apply Qmult_le_compat_nonneg; split; try tauto. apply Qle_refl.
Qed.

Lemma virtual_index_mono (m : nat) q1 q2 :
  q1 <= q2 ->
  inject_Z (Z.of_nat m) * (q1 / 100) <= inject_Z (Z.of_nat m) * (q2 / 100).
Proof.
  intros H.
  assert (Hm : 0 <= inject_Z (Z.of_nat m)).
  { change 0 with (inject_Z 0). rewrite <- Zle_Qle. lia. }
  rewrite !(Qmult_comm (inject_Z (Z.of_nat m))).
  apply Qmult_le_compat_r; [| exact Hm].
  unfold Qdiv. apply Qmult_le_compat_r; [exact H | discriminate].
Qed.

Lemma floor_range (m : nat) h :
  0 <= h <= inject_Z (Z.of_nat m) ->
  (0 <= Qfloor h <= Z.of_nat m)%Z.
Proof.
  intros [H0 H1]. split.
  - apply Qfloor_resp_le in H0. exact H0.
  - apply Qfloor_resp_le in H1. rewrite Qfloor_Z in H1. exact H1.
Qed.

Lemma gamma_range h : 0 <= h - inject_Z (Qfloor h) <= 1.
Proof.
  pose proof (Qfloor_le h) as Hl. pose proof (Qlt_floor h) as Hu.
  rewrite inject_Z_plus in Hu. change (inject_Z 1) with 1 in Hu.
  split; lra.
Qed.

(** An interpolated value lies between its two neighbours. *)
Lemma interpolate_between (x0 : Q) rest q :
  ascending (x0 :: rest) -> 0 <= q <= 100 ->
  let arr := x0 :: rest in
  let h := inject_Z (Z.of_nat (length rest)) * (q / 100) in
  let i := Z.to_nat (Qfloor h) in
  nth i arr x0 <= interpolate arr x0 q /\
  interpolate arr x0 q <= nth (Nat.min (i + 1) (length rest)) arr x0.
Proof.
  intros Hs Hq arr h i.
  pose proof (virtual_index_range (length rest) Hq) as Hh. fold h in Hh.
  pose proof (floor_range _ Hh) as Hf.
  pose proof (gamma_range h) as Hg.
  assert (Hle : nth i arr x0 <= nth (Nat.min (i + 1) (length rest)) arr x0).
  { apply ascending_nth; [exact Hs |]. unfold arr, i. cbn [length]. lia. }
  unfold interpolate, arr.
  replace (length (x0 :: rest) - 1)%nat with (length rest) by (simpl; lia).
  fold h. fold i. fold arr.
  set (lo := nth i arr x0) in *.
  set (hi := nth (Nat.min (i + 1) (length rest)) arr x0) in *.
  set (g := h - inject_Z (Qfloor h)) in *.
  split; nra.
Qed.

(** [percentile] grows with [q]. *)
Lemma percentile_monotone a q1 q2 v1 v2 :
  q1 <= q2 ->
  percentile a q1 = Ok v1 -> percentile a q2 = Ok v2 -> v1 <= v2.
Proof.
  intros Hq H1 H2.
  apply percentile_inv in H1, H2.
  destruct H1 as (Hq1 & x0 & rest & Hsort & ->).
  destruct H2 as (Hq2 & x0' & rest' & Hsort' & ->).
  rewrite Hsort in Hsort'. injection Hsort' as <- <-.
  pose proof (sort_ascending a) as Hs. rewrite Hsort in Hs.
  pose proof (interpolate_between Hs Hq1) as [_ Hup].
  pose proof (interpolate_between Hs Hq2) as [Hdown _].
  pose proof (virtual_index_mono (length rest) Hq) as Hh.
  pose proof (virtual_index_range (length rest) Hq1) as Hr1.
  pose proof (virtual_index_range (length rest) Hq2) as Hr2.
  set (h1 := inject_Z (Z.of_nat (length rest)) * (q1 / 100)) in *.
  set (h2 := inject_Z (Z.of_nat (length rest)) * (q2 / 100)) in *.
  pose proof (floor_range _ Hr1) as Hf1.
  pose proof (floor_range _ Hr2) as Hf2.
  pose proof (Qfloor_resp_le _ _ Hh) as Hfl.
  destruct (Z.eq_dec (Qfloor h1) (Qfloor h2)) as [Heq | Hne].
  - (* same cell: the interpolation is linear in the virtual index *)
    unfold interpolate.
    replace (length (x0 :: rest) - 1)%nat with (length rest) by (simpl; lia).
    fold h1. fold h2. rewrite Heq.
    set (i := Z.to_nat (Qfloor h2)).
    assert (Hle : nth i (x0 :: rest) x0
                  <= nth (Nat.min (i + 1) (length rest)) (x0 :: rest) x0).
    { apply ascending_nth; [exact Hs |]. unfold i. cbn [length]. lia. }
    set (lo := nth i (x0 :: rest) x0) in *.
    set (hi := nth (Nat.min (i + 1) (length rest)) (x0 :: rest) x0) in *.
    nra.
  - (* different cells: the right neighbour of the first is below the left
       neighbour of the second *)
    eapply Qle_trans; [exact Hup |]. eapply Qle_trans; [| exact Hdown].
    apply ascending_nth; [exact Hs |]. cbn [length]. lia.
Qed.

(** ** Ranks and order statistics *)

Lemma filter_none {A} (f : A -> bool) (l : list A) :
  filter f l = [] <-> forall x, In x l -> f x = false.
Proof.
  induction l as [| a l IH]; simpl; [tauto |].
  destruct (f a) eqn:E.
  - split; [discriminate |]. intros H. specialize (H a (or_introl eq_refl)).
    congruence.
  - rewrite IH. split.
    + intros H x [<- | Hx]; auto.
    + intros H x Hx. apply H. right. exact Hx.
Qed.

Lemma filter_all {A} (f : A -> bool) (l : list A) :
  length (filter f l) = length l <-> forall x, In x l -> f x = true.
Proof.
  induction l as [| a l IH]; simpl; [tauto |].
  pose proof (filter_length_le f l) as Hle.
  destruct (f a) eqn:E; simpl.
  - split.
    + intros H x [<- | Hx]; [exact E |]. apply IH; [lia | exact Hx].
    + intros H. f_equal. apply IH. intros x Hx. apply H. right. exact Hx.
  - split; [lia |]. intros H. specialize (H a (or_introl eq_refl)).
    congruence.
Qed.

Lemma below_spec v x : below v x = true <-> x < v.
Proof.
  unfold below. destruct (Qle_bool v x) eqn:E; simpl.
  - apply Qle_bool_iff in E. split; [discriminate | lra].
  - split; [intros _ | reflexivity].
    apply Qnot_le_lt. intros H. apply Qle_bool_iff in H. congruence.
Qed.

Lemma upto_spec v x : upto v x = true <-> x <= v.
Proof. unfold upto. apply Qle_bool_iff. Qed.

Lemma count_Permutation f l l' : Permutation l l' -> count f l = count f l'.
Proof.
  unfold count.
  induction 1 as [| x l l' _ IH | x y l | l l' l'' _ IH1 _ IH2]; simpl.
  - reflexivity.
  - destruct (f x); simpl; rewrite IH; reflexivity.
  - destruct (f x), (f y); reflexivity.
  - rewrite IH1. exact IH2.
Qed.

Lemma count_le f g l :
  (forall x, In x l -> f x = true -> g x = true) ->
  (count f l <= count g l)%nat.
Proof.
  unfold count. induction l as [| x l IH]; simpl; intros H; [lia |].
  assert (IH' : (length (filter f l) <= length (filter g l))%nat)
    by (apply IH; intros y Hy; apply H; right; exact Hy).
  destruct (f x) eqn:E.
  - rewrite (H x (or_introl eq_refl) E). simpl. lia.
  - destruct (g x); simpl; lia.
Qed.

Lemma count_app f l1 l2 :
  count f (l1 ++ l2) = (count f l1 + count f l2)%nat.
Proof. unfold count. rewrite filter_app, length_app. reflexivity. Qed.

Lemma count_none f l :
  (forall x, In x l -> f x = false) -> count f l = 0%nat.
Proof.
  intros H. unfold count. apply length_zero_iff_nil, filter_none. exact H.
Qed.

Lemma count_every f l : (forall x, In x l -> f x = true) -> count f l = length l.
Proof. intros H. unfold count. apply filter_all. exact H. Qed.

(** In an ascending list the value at position [k] has at most [k] values
    strictly below it and more than [k] values at most equal to it. *)
Lemma ascending_rank a k d :
  ascending a -> (k < length a)%nat ->
  (count (below (nth k a d)) a <= k)%nat /\
  (k < count (upto (nth k a d)) a)%nat.
Proof.
  intros Hs Hk. set (v := nth k a d). split.
  - rewrite <- (firstn_skipn k a), count_app.
    rewrite (count_none (below v) (skipn k a)).
    + unfold count. pose proof (filter_length_le (below v) (firstn k a)).
      rewrite length_firstn in H. lia.
    + intros x Hx. apply (In_nth _ _ d) in Hx. destruct Hx as (j & Hj & <-).
      rewrite length_skipn in Hj. rewrite nth_skipn.
      destruct (below v (nth (k + j) a d)) eqn:E; [| reflexivity].
      apply below_spec in E.
      pose proof (ascending_nth d Hs (i := k) (j := k + j) ltac:(lia)).
      fold v in H. lra.
  - rewrite <- (firstn_skipn (S k) a), count_app.
    rewrite (count_every (upto v) (firstn (S k) a)).
    + rewrite length_firstn. lia.
    + intros x Hx. apply (In_nth _ _ d) in Hx. destruct Hx as (j & Hj & <-).
      rewrite length_firstn in Hj. rewrite nth_firstn.
      destruct (Nat.ltb_spec j (S k)) as [Hlt | Hge]; [| lia].
      apply upto_spec. apply ascending_nth; [exact Hs | lia].
Qed.

(** Two values with the same rank in a list are equal. *)
Lemma rank_unique l k v w :
  (count (below v) l <= k)%nat -> (k < count (upto w) l)%nat -> v <= w.
Proof.
  intros Hv Hw. apply Qnot_lt_le. intros Hlt.
  pose proof (count_le (upto w) (below v) l) as Hle.
  assert ((count (upto w) l <= count (below v) l)%nat).
  { apply Hle. intros x _ Hx. apply upto_spec in Hx. apply below_spec. lra. }
  lia.
Qed.

(** The rank of a percentile among the values: with [k] the position just
    at or before the virtual index, at most [k + 1] values lie strictly
    below the percentile and at least [k + 1] lie at or below it. *)
Lemma percentile_rank a q v :
  percentile a q = Ok v ->
  (count (below v) a <= rank_of (length a) q + 1)%nat /\
  (rank_of (length a) q < count (upto v) a)%nat.
Proof.
  intros H. apply percentile_inv in H.
  destruct H as (Hq & x0 & rest & Hsort & ->).
  pose proof (sort_ascending a) as Hs. rewrite Hsort in Hs.
  pose proof (QSort.Permuted_sort a) as Hp. rewrite Hsort in Hp.
  rewrite (Permutation_length Hp).
  rewrite !(count_Permutation _ Hp).
  unfold rank_of. cbn [length].
  replace (S (length rest) - 1)%nat with (length rest) by lia.
  pose proof (interpolate_between Hs Hq) as [Hlo Hhi]. cbv zeta in Hlo, Hhi.
  pose proof (virtual_index_range (length rest) Hq) as Hh.
  pose proof (floor_range _ Hh) as Hf.
  set (h := inject_Z (Z.of_nat (length rest)) * (q / 100)) in *.
  set (i := Z.to_nat (Qfloor h)) in *.
  set (j := Nat.min (i + 1) (length rest)) in *.
  set (v := interpolate (x0 :: rest) x0 q) in *.
  assert (Hi : (i < length (x0 :: rest))%nat) by (unfold i; cbn [length]; lia).
  assert (Hj : (j < length (x0 :: rest))%nat)
    by (unfold j, i; cbn [length]; lia).
  destruct (ascending_rank x0 Hs Hi) as [_ Ui].
  destruct (ascending_rank x0 Hs Hj) as [Bj _].
  split.
  - apply Nat.le_trans with (count (below (nth j (x0 :: rest) x0)) (x0 :: rest)).
    + apply count_le. intros x _ Hx. apply below_spec in Hx.
      apply below_spec. lra.
    + unfold j in *. lia.
  - apply Nat.lt_le_trans with (count (upto (nth i (x0 :: rest) x0)) (x0 :: rest));
      [exact Ui |].
    apply count_le. intros x _ Hx. apply upto_spec in Hx.
    apply upto_spec. lra.
Qed.

(** ** [mean] and the share of losses *)

Lemma mean_times_length l :
  l <> [] -> mean l * inject_Z (Z.of_nat (length l)) == sum l.
Proof.
  intros Hl. unfold mean.
  assert (Hn : ~ inject_Z (Z.of_nat (length l)) == 0).
  { change 0 with (inject_Z 0). rewrite inject_Z_injective.
    destruct l; [congruence | simpl; lia]. }
  field. exact Hn.
Qed.

Lemma losses_spec l p : In p (losses l) <-> In p l /\ p < 0.
Proof.
  unfold losses. rewrite filter_In.
  destruct (Qle_bool 0 p) eqn:E; simpl.
  - apply Qle_bool_iff in E. split; intros [H1 H2]; [discriminate | lra].
  - assert (Hlt : p < 0).
    { apply Qnot_le_lt. intros H. apply Qle_bool_iff in H. congruence. }
    tauto.
Qed.

Lemma sum_is_loss l :
  sum (map is_loss l) == inject_Z (Z.of_nat (length (losses l))).
Proof.
  unfold losses, is_loss. induction l as [| p l IH]; simpl; [reflexivity |].
  destruct (Qle_bool 0 p); simpl negb; cbv iota.
  - rewrite IH. ring.
  - rewrite IH. cbn [length]. rewrite Nat2Z.inj_succ, <- Z.add_1_l.
    rewrite inject_Z_plus. reflexivity.
Qed.

Lemma losses_length l : (length (losses l) <= length l)%nat.
Proof. apply filter_length_le. Qed.

Lemma share_of_losses_range l : 0 <= mean (map is_loss l) <= 1.
Proof.
  unfold mean. rewrite sum_is_loss, length_map.
  pose proof (losses_length l) as Hle.
  destruct l as [| p l].
  - simpl. split; [apply Qle_refl | discriminate].
  - set (n := length (p :: l)) in *.
    assert (Hn : 0 < inject_Z (Z.of_nat n)).
    { change 0 with (inject_Z 0). rewrite <- Zlt_Qlt. unfold n. simpl. lia. }
    split.
    + apply Qle_shift_div_l; [exact Hn |]. rewrite Qmult_0_l.
      change 0 with (inject_Z 0). rewrite <- Zle_Qle. lia.
    + apply Qle_shift_div_r; [exact Hn |]. rewrite Qmult_1_l.
      rewrite <- Zle_Qle. lia.
Qed.

(** ** The bootstrap loop *)

Section BootstrapLoop.

Context {L : Library}.

Variables (target_valid predictions_valid : Series) (indices : list label).
Variables (n_wells_in_sample n_top_wells : Z) (budget revenue_per_unit : Q).

Let body :=
  bootstrap_iteration target_valid predictions_valid indices
    n_wells_in_sample n_top_wells budget revenue_per_unit.
Let high := length indices.
Let size := Z.to_nat n_wells_in_sample.
Let profit_of :=
  profit_of_sample target_valid predictions_valid budget revenue_per_unit
    n_wells_in_sample n_top_wells.

Lemma take_labels_at idx sample :
  take indices idx = Ok sample -> sample = labels_at indices idx.
Proof. exact (take_nth 0%Z indices idx (r := sample)). Qed.

(** What one successful turn of the loop did. *)
Lemma bootstrap_iteration_inv g acc st' :
  body (g, acc) = Ok st' ->
  (0 <= n_wells_in_sample)%Z /\
  Forall (fun i => (i < high)%nat) (fst (integers g high size)) /\
  exists p,
    profit_of (labels_at indices (fst (integers g high size))) = Ok p /\
    st' = (snd (integers g high size), acc ++ [p]).
Proof.
  unfold body, bootstrap_iteration, choice. fold high. fold size.
  destruct (Z.ltb_spec n_wells_in_sample 0) as [Hneg | Hpos];
    [discriminate |].
  destruct ((high =? 0)%nat && negb (n_wells_in_sample =? 0)%Z);
    [discriminate |].
  destruct (integers g high size) as [idx g'] eqn:E. simpl fst. simpl snd.
  intros H. invert_bind H as drawn Hdrawn. destruct drawn as [sample g''].
  invert_bind Hdrawn as sample' Htake. injection Hdrawn as <- <-.
  invert_bind H as st Hst. invert_bind H as sp Hsp. invert_bind H as p Hp.
  injection H as <-.
  split; [exact Hpos |]. split.
  - apply take_Forall2 in Htake. unfold high.
    clear - Htake. induction Htake as [| i x ps r Hi _ IH]; constructor; auto.
    apply nth_error_Some. congruence.
  - exists p. split; [| reflexivity].
    unfold profit_of, profit_of_sample.
    rewrite <- (take_labels_at _ Htake), Hst. simpl. rewrite Hsp. simpl.
    exact Hp.
Qed.

(** And conversely: a turn succeeds when a non-negative number of labels is
    drawn from a non-empty index and the profit of the sample is defined. *)
Lemma bootstrap_iteration_ok g acc p :
  (0 <= n_wells_in_sample)%Z ->
  (indices <> [] \/ n_wells_in_sample = 0%Z) ->
  Forall (fun i => (i < high)%nat) (fst (integers g high size)) ->
  profit_of (labels_at indices (fst (integers g high size))) = Ok p ->
  body (g, acc) = Ok (snd (integers g high size), acc ++ [p]).
Proof.
  intros Hpos Hne Hin Hp.
  unfold body, bootstrap_iteration, choice. fold high. fold size.
  destruct (Z.ltb_spec n_wells_in_sample 0) as [Hneg | _]; [lia |].
  assert (Hguard : (high =? 0)%nat && negb (n_wells_in_sample =? 0)%Z = false).
  { destruct Hne as [Hne | ->]; [| rewrite Z.eqb_refl; apply andb_false_r].
    destruct (Nat.eqb_spec high 0) as [H0 | _]; [| reflexivity].
    apply length_zero_iff_nil in H0. contradiction. }
  rewrite Hguard.
  destruct (integers g high size) as [idx g'] eqn:E. simpl fst in *.
  simpl snd.
  destruct (take_total indices Hin) as (sample & Hs).
  rewrite Hs. simpl.
  unfold profit_of, profit_of_sample in Hp.
  rewrite <- (take_labels_at _ Hs) in Hp.
  invert_bind Hp as st Hst. invert_bind Hp as sp Hsp.
  rewrite Hst, Hsp. simpl. rewrite Hp. reflexivity.
Qed.

(** The loop: [n] turns append the profits of the [n] successive draws and
    leave the generator advanced by exactly [n] calls. *)
Lemma for_range_bootstrap_inv n g acc g' ps :
  for_range n body (g, acc) = Ok (g', ps) ->
  exists new,
    ps = acc ++ new /\
    length new = n /\
    mapM profit_of (map (labels_at indices) (draws g high size n)) = Ok new /\
    Forall (Forall (fun i => (i < high)%nat)) (draws g high size n) /\
    g' = advance g high size n /\
    (n <> O -> (0 <= n_wells_in_sample)%Z).
Proof.
  revert g acc. induction n as [| n IH]; intros g acc H; simpl in H.
  - injection H as <- <-. exists []. rewrite app_nil_r.
    repeat split; auto. congruence.
  - invert_bind H as st Hst.
    apply bootstrap_iteration_inv in Hst.
    destruct Hst as (Hpos & Hin & p & Hp & ->).
    apply IH in H. destruct H as (new & -> & Hlen & Hm & Hall & -> & _).
    exists (p :: new). rewrite <- app_assoc. simpl.
    rewrite Hp. simpl. rewrite Hm. simpl.
    repeat split; auto.
Qed.

Lemma for_range_bootstrap_ok n g acc :
  (0 <= n_wells_in_sample)%Z ->
  (indices <> [] \/ n_wells_in_sample = 0%Z) ->
  (forall g, Forall (fun i => (i < high)%nat) (fst (integers g high size))) ->
  (forall sample, incl sample indices -> exists p, profit_of sample = Ok p) ->
  exists st, for_range n body (g, acc) = Ok st.
Proof.
  intros Hpos Hne Hin Hprofit.
  revert g acc. induction n as [| n IH]; intros g acc; cbn [for_range].
  - eexists. reflexivity.
  - destruct (Hprofit (labels_at indices (fst (integers g high size))))
      as (p & Hp).
    { intros x Hx. unfold labels_at in Hx. apply in_map_iff in Hx.
      destruct Hx as (i & <- & Hi). apply nth_In.
      specialize (Hin g). rewrite Forall_forall in Hin. apply Hin, Hi. }
    rewrite (bootstrap_iteration_ok g acc Hpos Hne (Hin g) Hp).
    cbn [bind]. apply IH.
Qed.

End BootstrapLoop.

(** ** bootstrap_profit *)

Lemma firstn_incl {A} (l : list A) k : incl (firstn k l) l.
Proof.
  intros x Hx. rewrite <- (firstn_skipn k l). apply in_or_app. left. exact Hx.
Qed.

Lemma head_incl {A} (s : Frame A) n : incl (head s n) s.
Proof.
  unfold head. destruct (0 <=? n)%Z; apply firstn_incl.
Qed.

Lemma draws_length {L : Library} g high size n :
  length (draws g high size n) = n.
Proof.
  revert g. induction n as [| n IH]; intros g; simpl; [| rewrite IH];
    reflexivity.
Qed.

Section BootstrapProfit.

Context {L : Library} {laws : LibraryLaws L}.

Lemma draws_sizes g high size n :
  Forall (fun d => length d = size) (draws g high size n).
Proof.
  revert g. induction n as [| n IH]; intros g; simpl; constructor;
    [apply integers_length | apply IH].
Qed.

(** On two series with the same index [calculate_profit] raises nothing. *)
Lemma calculate_profit_total (target_valid predictions_valid : Series)
    budget revenue_per_unit n_wells_in_sample n_top_wells :
  index target_valid = index predictions_valid ->
  exists p,
    calculate_profit target_valid predictions_valid budget revenue_per_unit
      n_wells_in_sample n_top_wells = Ok p.
Proof.
  intros Hidx. unfold calculate_profit.
  destruct (sort_values_desc_ok (fun v => v) predictions_valid)
    as (order & -> & Hperm & _).
  simpl. rewrite loc_total; [simpl; eexists; reflexivity |].
  intros k Hk. rewrite Hidx. unfold index in *.
  apply in_map_iff in Hk. destruct Hk as (row & <- & Hrow).
  apply in_map. apply head_incl in Hrow.
  eapply Permutation_in; [apply Permutation_sym; exact Hperm | exact Hrow].
Qed.

Lemma profit_of_sample_total (target_valid predictions_valid : Series)
    budget revenue_per_unit n_wells_in_sample n_top_wells sample :
  index target_valid = index predictions_valid ->
  incl sample (index target_valid) ->
  exists p,
    profit_of_sample target_valid predictions_valid budget revenue_per_unit
      n_wells_in_sample n_top_wells sample = Ok p.
Proof.
  intros Hidx Hin. unfold profit_of_sample.
  pose proof (loc_total target_valid Hin) as Ht.
  destruct (loc_same_index target_valid predictions_valid _ Hidx Ht)
    as (sp & Hsp & Hsame).
  rewrite Ht, Hsp. simpl.
  apply calculate_profit_total. symmetry. exact Hsame.
Qed.

(** [default_rng] on a seed: the seeded generator, or ValueError below 0. *)
Lemma default_rng_ok (e : entropy) (random_state : Z) :
  (0 <= random_state)%Z ->
  default_rng (Some random_state) e = Ok (seeded_rng random_state).
Proof.
  intros H. unfold default_rng.
  destruct (Z.ltb_spec random_state 0); [lia | reflexivity].
Qed.

Lemma default_rng_negative (e : entropy) (random_state : Z) :
  (random_state < 0)%Z ->
  default_rng (Some random_state) e = Raise ValueError.
Proof.
  intros H. unfold default_rng.
  destruct (Z.ltb_spec random_state 0); [reflexivity | lia].
Qed.

Lemma default_rng_inv (e : entropy) (random_state : Z) (g : rng) :
  default_rng (Some random_state) e = Ok g ->
  (0 <= random_state)%Z /\ g = seeded_rng random_state.
Proof.
  unfold default_rng.
  destruct (Z.ltb_spec random_state 0); [discriminate |].
  intros Hg. injection Hg as <-. split; [assumption | reflexivity].
Qed.

(** A negative seed stops [bootstrap_profit] before the loop. *)
Lemma bootstrap_profit_negative_seed (e : entropy)
    (target_valid predictions_valid : Series)
    (n_iter n_wells_in_sample n_top_wells : Z)
    (budget revenue_per_unit : Q) (random_state : Z) :
  (random_state < 0)%Z ->
  bootstrap_profit e target_valid predictions_valid n_iter n_wells_in_sample
    n_top_wells budget revenue_per_unit random_state = Raise ValueError.
Proof.
  intros H. unfold bootstrap_profit.
  rewrite default_rng_negative by exact H. reflexivity.
Qed.

(** The shape of a returned result. *)
Lemma bootstrap_profit_inv (e : entropy)
    (target_valid predictions_valid : Series)
    (n_iter n_wells_in_sample n_top_wells : Z)
    (budget revenue_per_unit : Q) (random_state : Z) (stats : Stats) :
  bootstrap_profit e target_valid predictions_valid n_iter n_wells_in_sample
    n_top_wells budget revenue_per_unit random_state = Ok stats ->
  (exists g,
     bootstrap_loop target_valid predictions_valid (index target_valid)
       n_iter n_wells_in_sample n_top_wells budget revenue_per_unit
       (seeded_rng random_state) = Ok (g, profits stats)) /\
  mean_profit stats = mean (profits stats) /\
  percentile (profits stats) (5 # 2) = Ok (ci_low stats) /\
  percentile (profits stats) (195 # 2) = Ok (ci_high stats) /\
  risk stats = mean (map is_loss (profits stats)) /\
  length (profits stats) = Z.to_nat n_iter /\
  (0 < n_iter)%Z /\
  (0 <= random_state)%Z.
Proof.
  unfold bootstrap_profit. intros H.
  invert_bind H as g0 Hseed. apply default_rng_inv in Hseed.
  destruct Hseed as (Hseed & ->).
  invert_bind H as st Hloop. destruct st as [g ps].
  invert_bind H as lo Hlo. invert_bind H as hi Hhi.
  injection H as <-. simpl.
  assert (Hlen : length ps = Z.to_nat n_iter).
  { unfold bootstrap_loop in Hloop.
    apply for_range_bootstrap_inv in Hloop.
    destruct Hloop as (new & -> & Hlen & _). exact Hlen. }
  repeat split; auto.
  - exists g. exact Hloop.
  - apply percentile_Ok_nonempty in Hlo.
    destruct ps; [congruence |]. simpl in Hlen. lia.
Qed.

(** C9: whenever [bootstrap_profit] returns, the risk is a share between 0
    and 1, the interval is ordered, and [profits] has [n_iter] entries. *)
Theorem bootstrap_profit_invariants (e : entropy)
    (target_valid predictions_valid : Series)
    (n_iter n_wells_in_sample n_top_wells : Z)
    (budget revenue_per_unit : Q) (random_state : Z) (stats : Stats) :
  bootstrap_profit e target_valid predictions_valid n_iter n_wells_in_sample
    n_top_wells budget revenue_per_unit random_state = Ok stats ->
  0 <= risk stats <= 1 /\
  ci_low stats <= ci_high stats /\
  Z.of_nat (length (profits stats)) = n_iter.
Proof.
  intros H. apply bootstrap_profit_inv in H.
  destruct H as (_ & _ & Hlo & Hhi & -> & Hlen & Hpos).
  split; [apply share_of_losses_range |]. split.
  - eapply percentile_monotone; [| exact Hlo | exact Hhi]. discriminate.
  - rewrite Hlen. lia.
Qed.

(** [bootstrap_profit] returns whenever at least one resample is asked
    from a non-empty index shared by the two series and the seed is not
    negative. *)
Lemma bootstrap_profit_returns (e : entropy)
    (target_valid predictions_valid : Series)
    (n_iter n_wells_in_sample n_top_wells : Z)
    (budget revenue_per_unit : Q) (random_state : Z) :
  index target_valid = index predictions_valid ->
  (0 < n_iter)%Z -> (0 <= n_wells_in_sample)%Z ->
  (target_valid <> [] \/ n_wells_in_sample = 0%Z) ->
  (0 <= random_state)%Z ->
  exists stats,
    bootstrap_profit e target_valid predictions_valid n_iter
      n_wells_in_sample n_top_wells budget revenue_per_unit random_state
    = Ok stats.
Proof.
  intros Hidx Hiter Hpos Hne Hseed.
  unfold bootstrap_profit, bootstrap_loop.
  rewrite default_rng_ok by exact Hseed. cbn [bind].
  set (indices := index target_valid).
  assert (Hne' : indices <> [] \/ n_wells_in_sample = 0%Z).
  { destruct Hne as [Hne | Hz]; [left | right; exact Hz].
    unfold indices, index. destruct target_valid; [congruence | discriminate]. }
  destruct (@for_range_bootstrap_ok L target_valid predictions_valid
              indices n_wells_in_sample n_top_wells budget revenue_per_unit
              (Z.to_nat n_iter) (seeded_rng random_state) []
              Hpos Hne') as ([g ps] & Hloop).
  - intros g.
    destruct (Nat.eq_dec (length indices) 0) as [H0 | Hn0].
    + destruct Hne' as [Hi | Hz];
        [apply length_zero_iff_nil in H0; contradiction |].
      pose proof (integers_length g (length indices)
                    (Z.to_nat n_wells_in_sample)) as Hl.
      rewrite Hz in Hl. simpl in Hl. apply length_zero_iff_nil in Hl.
      rewrite Hz. simpl Z.to_nat. rewrite Hl. constructor.
    + apply integers_bound. lia.
  - intros sample Hs. apply profit_of_sample_total; assumption.
  - rewrite Hloop. simpl.
    apply for_range_bootstrap_inv in Hloop.
    destruct Hloop as (new & Heq & Hlen & _). simpl in Heq. subst ps.
    assert (Hnew : new <> []).
    { destruct new; [simpl in Hlen; lia | discriminate]. }
    destruct (percentile_nonempty (q := 5 # 2) Hnew) as (lo & ->);
      [split; discriminate |].
    destruct (percentile_nonempty (q := 195 # 2) Hnew) as (hi & ->);
      [split; discriminate |].
    simpl. eexists. reflexivity.
Qed.

(** C2: on two series with the same index, whenever [bootstrap_profit]
    returns, the seed is not negative and the profits are those of [n_iter]
    resamples of [n_wells_in_sample] labels, each drawn by one call of the
    seeded generator on the index of [target_valid]; [mean_profit] is their
    mean, [risk] the share of the strictly negative ones, and [ci_low] and
    [ci_high] are their 2.5th and 97.5th percentiles: with [k] the whole
    part of [(n_iter - 1) * q / 100], at most [k + 1] profits lie strictly
    below the percentile and at least [k + 1] at or below it.  The call
    returns when at least one resample is asked from a non-empty index
    with a seed that is not negative; a negative seed is a ValueError. *)
Theorem bootstrap_profit_resamples (e : entropy)
    (target_valid predictions_valid : Series)
    (n_iter n_wells_in_sample n_top_wells : Z)
    (budget revenue_per_unit : Q) (random_state : Z) :
  index target_valid = index predictions_valid ->
  let indices := index target_valid in
  let samples :=
    map (labels_at indices)
        (draws (seeded_rng random_state) (length indices)
               (Z.to_nat n_wells_in_sample) (Z.to_nat n_iter)) in
  let n := Z.to_nat n_iter in
  (forall stats,
     bootstrap_profit e target_valid predictions_valid n_iter
       n_wells_in_sample n_top_wells budget revenue_per_unit random_state
     = Ok stats ->
     (0 <= random_state)%Z /\
     Z.of_nat (length samples) = n_iter /\
     Forall (fun s => Z.of_nat (length s) = n_wells_in_sample /\
                      incl s indices) samples /\
     mapM (profit_of_sample target_valid predictions_valid budget
             revenue_per_unit n_wells_in_sample n_top_wells) samples
     = Ok (profits stats) /\
     mean_profit stats * inject_Z n_iter == sum (profits stats) /\
     percentile (profits stats) (5 # 2) = Ok (ci_low stats) /\
     percentile (profits stats) (195 # 2) = Ok (ci_high stats) /\
     (count (below (ci_low stats)) (profits stats)
      <= rank_of n (5 # 2) + 1
      <= count (upto (ci_low stats)) (profits stats))%nat /\
     (count (below (ci_high stats)) (profits stats)
      <= rank_of n (195 # 2) + 1
      <= count (upto (ci_high stats)) (profits stats))%nat /\
     risk stats * inject_Z n_iter
     == inject_Z (Z.of_nat (length (losses (profits stats))))) /\
  ((0 < n_iter)%Z -> (0 <= n_wells_in_sample)%Z ->
   (target_valid <> [] \/ n_wells_in_sample = 0%Z) ->
   (0 <= random_state)%Z ->
   exists stats,
     bootstrap_profit e target_valid predictions_valid n_iter
       n_wells_in_sample n_top_wells budget revenue_per_unit random_state
     = Ok stats) /\
  ((random_state < 0)%Z ->
   bootstrap_profit e target_valid predictions_valid n_iter
     n_wells_in_sample n_top_wells budget revenue_per_unit random_state
   = Raise ValueError).
Proof.
  intros Hidx indices samples n. split; [| split].
  - intros stats H. apply bootstrap_profit_inv in H.
    destruct H
      as ((g & Hloop) & Hmean & Hlo & Hhi & Hrisk & Hn & Hiter & Hseed).
    unfold bootstrap_loop in Hloop. fold indices in Hloop.
    apply for_range_bootstrap_inv in Hloop.
    destruct Hloop as (new & Hnew & Hlen & Hm & Hall & _ & Hpos).
    simpl in Hnew. rewrite <- Hnew in *. clear new Hnew.
    assert (Hne : profits stats <> []).
    { destruct (profits stats); [simpl in Hn; lia | discriminate]. }
    specialize (Hpos ltac:(lia)).
    pose proof (@percentile_rank _ _ _ Hlo) as Rlo.
    pose proof (@percentile_rank _ _ _ Hhi) as Rhi.
    rewrite Hn in Rlo, Rhi. fold n in Rlo, Rhi.
    split; [exact Hseed |].
    split; [unfold samples; rewrite length_map, draws_length; lia |].
    split; [| split; [exact Hm |]].
    + unfold samples. rewrite Forall_map.
      pose proof (draws_sizes (seeded_rng random_state) (length indices)
                    (Z.to_nat n_wells_in_sample) (Z.to_nat n_iter)) as Hsz.
      rewrite Forall_forall in *. intros d Hd. split.
      * unfold labels_at. rewrite length_map, (Hsz d Hd). lia.
      * intros x Hx. unfold labels_at in Hx. apply in_map_iff in Hx.
        destruct Hx as (i & <- & Hi). apply nth_In.
        specialize (Hall d Hd). rewrite Forall_forall in Hall. auto.
    + replace n_iter with (Z.of_nat (length (profits stats))) by lia.
      rewrite Hmean, Hrisk.
      split; [apply mean_times_length, Hne |].
      split; [exact Hlo |]. split; [exact Hhi |].
      split; [lia |]. split; [lia |].
      rewrite <- (length_map is_loss (profits stats)) at 1.
      rewrite mean_times_length, sum_is_loss; [reflexivity |].
      destruct (profits stats); [congruence | discriminate].
  - intros Hiter Hpos Hne Hseed. apply bootstrap_profit_returns; assumption.
  - apply bootstrap_profit_negative_seed.
Qed.

End BootstrapProfit.

(** ** train_region *)

Lemma ceil_quarter (n : nat) :
  Z.to_nat (Qceiling ((1 # 4) * inject_Z (Z.of_nat n))) = ((n + 3) / 4)%nat.
Proof.
  unfold Qceiling, Qfloor, Qopp, Qmult, inject_Z. cbn [Qnum Qden].
  rewrite Z.mul_1_l. change (Z.pos (4 * 1)) with 4%Z.
  apply Nat2Z.inj. rewrite Nat2Z.inj_div, Nat2Z.inj_add.
  change (Z.of_nat 3) with 3%Z. change (Z.of_nat 4) with 4%Z.
  rewrite Z2Nat.id; Z.to_euclidean_division_equations; lia.
Qed.

Lemma quarter_bounds (n : nat) :
  (n <= 4 * ((n + 3) / 4) < n + 4)%nat /\
  ((n + 3) / 4 <= n)%nat /\
  ((n - (n + 3) / 4 = 0)%nat <-> (n < 2)%nat) /\
  ((n mod 4 = 0)%nat -> (4 * ((n + 3) / 4) = n)%nat).
Proof.
  pose proof (Nat.div_mod_eq (n + 3) 4) as H.
  pose proof (Nat.mod_upper_bound (n + 3) 4 ltac:(lia)) as Hm.
  pose proof (Nat.div_mod_eq n 4) as H'.
  pose proof (Nat.mod_upper_bound n 4 ltac:(lia)) as Hm'.
  repeat split; try lia.
Qed.

Lemma combine_map_same {A B C} (f : A -> B) (g : A -> C) (l : list A) :
  combine (map f l) (map g l) = map (fun x => (f x, g x)) l.
Proof.
  induction l as [| x l IH]; simpl; [| rewrite IH]; reflexivity.
Qed.

Lemma sum_nonneg l : (forall x, In x l -> 0 <= x) -> 0 <= sum l.
Proof.
  induction l as [| x l IH]; simpl; intros H; [apply Qle_refl |].
  assert (0 <= x) by (apply H; left; reflexivity).
  assert (0 <= sum l) by (apply IH; intros y Hy; apply H; right; exact Hy).
  unfold sum in *. lra.
Qed.

Lemma square_nonneg (x : Q) : 0 <= x * x.
Proof. nra. Qed.

Lemma sum_squares_zero {A} (f : A -> Q) (l : list A) :
  sum (map (fun r => f r * f r) l) == 0 <-> Forall (fun r => f r == 0) l.
Proof.
  induction l as [| x l IH]; cbn [map sum fold_right].
  - split; [constructor | reflexivity].
  - fold (sum (map (fun r => f r * f r) l)).
    assert (Hl : 0 <= sum (map (fun r => f r * f r) l)).
    { apply sum_nonneg. intros y Hy. apply in_map_iff in Hy.
      destruct Hy as (r & <- & _). apply square_nonneg. }
    pose proof (square_nonneg (f x)) as Hx.
    split.
    + intros H. assert (H0 : f x * f x == 0) by lra.
      assert (H1 : sum (map (fun r => f r * f r) l) == 0) by lra.
      constructor; [| apply IH; exact H1].
      apply Qmult_integral in H0. tauto.
    + intros H. inversion H as [| ? ? Hfx Hrest]; subst.
      apply IH in Hrest. rewrite Hrest, Hfx. reflexivity.
Qed.

(** The score of [r2_score]: 1 exactly when the squared errors vanish, and
    otherwise one minus their share of the total variation. *)
Lemma r2_score_spec y_true y_pred score :
  r2_score y_true y_pred = Some score ->
  let numerator := sum (squared_errors y_true y_pred) in
  let denominator :=
    sum (map (fun t => (t - mean y_true) * (t - mean y_true)) y_true) in
  (score == 1 <-> numerator == 0) /\
  (~ denominator == 0 -> (1 - score) * denominator == numerator).
Proof.
  unfold r2_score. destruct (length y_pred <? 2)%nat; [discriminate |].
  cbv zeta.
  set (numerator := sum (squared_errors y_true y_pred)).
  set (denominator := sum (map _ y_true)).
  destruct (Qeq_bool numerator 0) eqn:En.
  - apply Qeq_bool_iff in En. intros H. injection H as <-.
    split; [split; [intros _; exact En | reflexivity] |].
    intros _. rewrite En. ring.
  - apply Qeq_bool_neq in En.
    destruct (Qeq_bool denominator 0) eqn:Ed.
    + apply Qeq_bool_iff in Ed. intros H. injection H as <-.
      split; [split; [intros H; discriminate H | intros H; contradiction] |].
      intros Hd. contradiction.
    + apply Qeq_bool_neq in Ed. intros H. injection H as <-.
      split.
      * split; [| intros H; contradiction].
        intros H. assert (Hz : numerator / denominator == 0) by lra.
        assert (Hn : numerator == denominator * (numerator / denominator))
          by (field; exact Ed).
        eapply Qeq_trans; [exact Hn | rewrite Hz; ring].
      * intros _. field. exact Ed.
Qed.

Section TrainRegion.

Context {L : Library} {laws : LibraryLaws L}.

Lemma seeded_permutation_length seed n :
  length (seeded_permutation seed n) = n.
Proof.
  rewrite (Permutation_length (seeded_permutation_perm seed n)).
  apply length_seq.
Qed.

(** The split of [train_test_split] on a frame of [n] rows: the shuffled
    rows, cut after the first [ceil(n / 4)]. *)
Lemma split_rows {A} (df : Frame A) seed :
  let n := length df in
  let n_valid := ((n + 3) / 4)%nat in
  exists valid train,
    take df (firstn n_valid (seeded_permutation seed n)) = Ok valid /\
    take df (skipn n_valid (seeded_permutation seed n)) = Ok train /\
    Permutation df (valid ++ train) /\
    length valid = n_valid /\ length train = (n - n_valid)%nat.
Proof.
  intros n n_valid.
  destruct (take_perm df (seeded_permutation_perm seed n))
    as (shuffled & Htake & Hperm).
  exists (firstn n_valid shuffled), (skipn n_valid shuffled).
  pose proof (Permutation_length Hperm) as Hlen. fold n in Hlen.
  pose proof (quarter_bounds n) as (_ & Hle & _).
  split; [apply take_firstn, Htake |].
  split; [apply take_skipn, Htake |].
  split; [rewrite firstn_skipn; exact Hperm |].
  split; [rewrite length_firstn | rewrite length_skipn]; fold n_valid in Hle;
    lia.
Qed.

(** [shuffle] on a seed: the seeded permutation, or ValueError out of
    range. *)
Lemma shuffle_ok (e : entropy) (seed : Z) (n : nat) :
  (0 <= seed <= MAX_SEED)%Z ->
  shuffle (Some seed) e n = Ok (seeded_permutation seed n).
Proof.
  intros H. unfold shuffle.
  destruct (Z.ltb_spec seed 0); [lia |].
  destruct (Z.ltb_spec MAX_SEED seed); [lia | reflexivity].
Qed.

Lemma shuffle_out_of_range (e : entropy) (seed : Z) (n : nat) :
  (seed < 0 \/ MAX_SEED < seed)%Z ->
  shuffle (Some seed) e n = Raise ValueError.
Proof.
  intros H. unfold shuffle.
  destruct (Z.ltb_spec seed 0); [reflexivity |].
  destruct (Z.ltb_spec MAX_SEED seed); [reflexivity | lia].
Qed.

Lemma train_test_split_quarter {A B} (e : entropy)
    (features : Frame A) (target : Frame B) seed :
  let n := length features in
  let n_valid := ((n + 3) / 4)%nat in
  train_test_split e features target (1 # 4) seed =
  if (n <? 2)%nat then Raise ValueError
  else if ((seed <? 0) || (MAX_SEED <? seed))%Z then Raise ValueError
  else
    features_train <- take features (skipn n_valid (seeded_permutation seed n)) ;;
    features_valid <- take features (firstn n_valid (seeded_permutation seed n)) ;;
    target_train <- take target (skipn n_valid (seeded_permutation seed n)) ;;
    target_valid <- take target (firstn n_valid (seeded_permutation seed n)) ;;
    Ok (features_train, features_valid, target_train, target_valid).
Proof.
  intros n n_valid. unfold train_test_split. fold n.
  rewrite ceil_quarter. fold n_valid.
  pose proof (quarter_bounds n) as (_ & Hle & Hzero & _).
  fold n_valid in Hle, Hzero.
  destruct (Nat.ltb_spec n 2) as [Hlt | Hge].
  - apply Hzero in Hlt. rewrite Hlt. reflexivity.
  - destruct (Nat.eqb_spec (n - n_valid) 0) as [H0 | _];
      [apply Hzero in H0; lia |].
    unfold shuffle.
    destruct ((seed <? 0) || (MAX_SEED <? seed))%Z; [reflexivity |].
    cbn [bind].
    rewrite (firstn_all2 (n := n - n_valid));
      [reflexivity | rewrite length_skipn, seeded_permutation_length; lia].
Qed.

(** The columns [train_region] works on, row by row. *)
Lemma values_select_product (rows : DataFrame) :
  values (select_product rows) = map (fun r => product (snd r)) rows.
Proof.
  unfold values, select_product. rewrite map_map. reflexivity.
Qed.

Lemma predictions_by_row (m : LinearModel) (rows : DataFrame) :
  combine (index (select_product rows))
    (map (predict m) (values (select_features rows)))
  = map (fun r => (fst r, predict m (features_of r))) rows.
Proof.
  unfold index, values, select_product, select_features.
  rewrite !map_map. cbn [fst snd]. apply combine_map_same.
Qed.

Lemma squared_errors_by_row (m : LinearModel) (rows : DataFrame) :
  squared_errors (map (fun r => product (snd r)) rows)
    (map (fun r => predict m (features_of r)) rows)
  = map (fun r => residual m r * residual m r) rows.
Proof.
  unfold squared_errors. rewrite combine_map_same, map_map. reflexivity.
Qed.

(** [train_region] in terms of the rows of the frame. *)
Lemma train_region_unfold (e : entropy) (df : DataFrame)
    (region_name : string) (random_state : Z) :
  let n := length df in
  let n_valid := ((n + 3) / 4)%nat in
  train_region e df region_name random_state =
  if (n <? 2)%nat then Raise ValueError
  else if ((random_state <? 0) || (MAX_SEED <? random_state))%Z
  then Raise ValueError
  else
    train <- take df (skipn n_valid (seeded_permutation random_state n)) ;;
    valid <- take df (firstn n_valid (seeded_permutation random_state n)) ;;
    let model := lstsq (values (select_features train))
                       (values (select_product train)) in
    let preds_valid :=
      combine (index (select_product valid))
              (map (predict model) (values (select_features valid))) in
    Ok {| region := region_name; model := model;
          features_valid := select_features valid;
          target_valid := select_product valid;
          preds_valid := preds_valid;
          rmse := root_mean_squared_error (values (select_product valid))
                    (values preds_valid);
          r2 := r2_score (values (select_product valid)) (values preds_valid);
          mean_pred := mean (values preds_valid) |}.
Proof.
  intros n n_valid.
  unfold train_region. rewrite train_test_split_quarter.
  unfold select_features, select_product. rewrite length_map.
  fold n. fold n_valid. rewrite !take_map_eq.
  destruct (n <? 2)%nat; [reflexivity |].
  destruct ((random_state <? 0) || (MAX_SEED <? random_state))%Z;
    [reflexivity |].
  destruct (take df (skipn n_valid (seeded_permutation random_state n)))
    as [train | err]; simpl; [| reflexivity].
  destruct (take df (firstn n_valid (seeded_permutation random_state n)))
    as [valid | err]; simpl; reflexivity.
Qed.

Lemma seed_in_range (seed : Z) :
  ((seed <? 0) || (MAX_SEED <? seed))%Z = false <-> (0 <= seed <= MAX_SEED)%Z.
Proof.
  rewrite orb_false_iff, !Z.ltb_ge. tauto.
Qed.

Lemma seed_out_of_range (seed : Z) :
  ((seed <? 0) || (MAX_SEED <? seed))%Z = true
  <-> (seed < 0 \/ MAX_SEED < seed)%Z.
Proof.
  rewrite orb_true_iff, !Z.ltb_lt. tauto.
Qed.

(** On a frame of two rows or more and with a seed in range [train_region]
    returns, with a non-empty validation set and predictions under the
    labels of the targets. *)
Lemma train_region_ok (e : entropy) (df : DataFrame)
    (region_name : string) (random_state : Z) :
  (2 <= length df)%nat ->
  (0 <= random_state <= MAX_SEED)%Z ->
  exists res,
    train_region e df region_name random_state = Ok res /\
    region res = region_name /\
    index (target_valid res) = index (preds_valid res) /\
    target_valid res <> [].
Proof.
  intros Hn Hseed. rewrite train_region_unfold.
  destruct (split_rows df random_state)
    as (valid & train & Hvalid & Htrain & _ & Hlv & _).
  rewrite Htrain, Hvalid. cbn [bind].
  destruct (Nat.ltb_spec (length df) 2) as [Hlt | _]; [lia |].
  apply seed_in_range in Hseed. rewrite Hseed.
  eexists. split; [reflexivity |].
  cbn [region target_valid preds_valid]. split; [reflexivity |]. split.
  - unfold index, values, select_product, select_features.
    rewrite !map_map. cbn [fst snd]. rewrite combine_map_same, map_map.
    reflexivity.
  - pose proof (quarter_bounds (length df)) as (Hq & _).
    intros Hnil. apply (f_equal (@length _)) in Hnil.
    unfold select_product in Hnil. rewrite length_map in Hnil.
    simpl in Hnil. lia.
Qed.

(** C4: whenever [train_region] returns, the frame has two rows or more,
    the seed lies in [0, 2**32 - 1], and the shuffled rows, in the order
    fixed by [random_state], are cut into a validation part of
    [ceil(n / 4)] rows (a quarter of them, exactly so when 4 divides [n])
    and a training part of the other rows.  The model is the solver's
    answer on the training rows alone; the predictions are the model's
    values on the validation rows, under their labels; [mean_pred] is the
    mean of those predictions, [rmse] the square root of the mean squared
    error on the validation rows, and [r2] scores them: 1 exactly when
    every validation row is predicted without error, otherwise one minus
    the share of the squared errors in the variation of the validation
    targets.  It returns as soon as the frame has two rows and the seed
    is in range, and raises ValueError otherwise. *)
Theorem train_region_split_fit_validate (e : entropy) (df : DataFrame)
    (region_name : string) (random_state : Z) :
  let n := length df in
  let n_valid := ((n + 3) / 4)%nat in
  (forall res, train_region e df region_name random_state = Ok res ->
     (2 <= n)%nat /\ (0 <= random_state <= MAX_SEED)%Z /\
     exists train valid,
       take df (firstn n_valid (seeded_permutation random_state n)) = Ok valid /\
       take df (skipn n_valid (seeded_permutation random_state n)) = Ok train /\
       Permutation df (valid ++ train) /\
       length valid = n_valid /\ length train = (n - n_valid)%nat /\
       (n <= 4 * length valid < n + 4)%nat /\
       ((n mod 4 = 0)%nat ->
        (4 * length valid = n /\ 4 * length train = 3 * n)%nat) /\
       region res = region_name /\
       model res = lstsq (values (select_features train))
                         (values (select_product train)) /\
       features_valid res = select_features valid /\
       target_valid res = select_product valid /\
       preds_valid res
       = map (fun r => (fst r, predict (model res)
                                 (f0 (snd r), f1 (snd r), f2 (snd r)))) valid /\
       rmse res = root_mean_squared_error (values (target_valid res))
                    (values (preds_valid res)) /\
       r2 res = r2_score (values (target_valid res))
                  (values (preds_valid res)) /\
       mean_pred res = mean (values (preds_valid res)) /\
       let n_rows := inject_Z (Z.of_nat (length valid)) in
       let errors :=
         sum (map (fun r => residual (model res) r * residual (model res) r)
                  valid) in
       let y_mean := mean (map (fun r => product (snd r)) valid) in
       let variation :=
         sum (map (fun r => (product (snd r) - y_mean)
                            * (product (snd r) - y_mean)) valid) in
       mean_pred res * n_rows
       == sum (map (fun r => predict (model res) (features_of r)) valid) /\
       (exists mse, rmse res = sqrt mse /\ mse * n_rows == errors) /\
       (forall score, r2 res = Some score ->
          (score == 1
           <-> Forall (fun r => residual (model res) r == 0) valid) /\
          (~ variation == 0 -> (1 - score) * variation == errors))) /\
  ((2 <= n)%nat -> (0 <= random_state <= MAX_SEED)%Z ->
   exists res, train_region e df region_name random_state = Ok res) /\
  ((n < 2)%nat \/ (random_state < 0)%Z \/ (MAX_SEED < random_state)%Z ->
   train_region e df region_name random_state = Raise ValueError).
Proof.
  intros n n_valid.
  pose proof (train_region_unfold e df region_name random_state) as Hsplit.
  cbv zeta in Hsplit. fold n in Hsplit. fold n_valid in Hsplit.
  destruct (split_rows df random_state)
    as (valid & train & Hvalid & Htrain & Hperm & Hlv & Hlt).
  fold n in Hvalid, Htrain, Hlv, Hlt. fold n_valid in Hvalid, Htrain, Hlv, Hlt.
  pose proof (quarter_bounds n) as (Hq & _ & _ & Hdiv). fold n_valid in Hq, Hdiv.
  rewrite Hsplit, Htrain, Hvalid. simpl bind.
  split; [| split].
  - destruct (Nat.ltb_spec n 2) as [| Hn]; [discriminate |].
    destruct ((random_state <? 0) || (MAX_SEED <? random_state))%Z eqn:Hseed;
      [discriminate |].
    apply seed_in_range in Hseed.
    intros res Hres. injection Hres as <-.
    cbn [region model features_valid target_valid preds_valid rmse r2
         mean_pred].
    set (m := lstsq (values (select_features train))
                    (values (select_product train))).
    split; [exact Hn |]. split; [exact Hseed |].
    exists train, valid.
    split; [reflexivity |]. split; [reflexivity |].
    split; [exact Hperm |]. split; [exact Hlv |]. split; [exact Hlt |].
    split; [lia |].
    split; [intros Hmod; specialize (Hdiv Hmod); lia |].
    do 4 (split; [reflexivity |]).
    split; [apply predictions_by_row |].
    do 3 (split; [reflexivity |]).
    rewrite predictions_by_row, values_select_product.
    assert (Hpv : values (map (fun r => (fst r, predict m (features_of r)))
                              valid)
                  = map (fun r => predict m (features_of r)) valid).
    { unfold values. rewrite map_map. reflexivity. }
    rewrite Hpv. cbv zeta.
    assert (Hne : map (fun r => predict m (features_of r)) valid <> []).
    { intros Hnil. apply (f_equal (@length _)) in Hnil.
      rewrite length_map in Hnil. cbn [length] in Hnil. lia. }
    split; [| split].
    + rewrite <- (length_map (fun r => predict m (features_of r)) valid).
      apply mean_times_length, Hne.
    + unfold root_mean_squared_error. eexists. split; [reflexivity |].
      rewrite squared_errors_by_row.
      rewrite <- (length_map (fun r => residual m r * residual m r) valid).
      apply mean_times_length.
      intros Hnil. apply (f_equal (@length _)) in Hnil.
      rewrite length_map in Hnil. cbn [length] in Hnil. lia.
    + intros score Hscore. apply r2_score_spec in Hscore.
      cbv zeta in Hscore. rewrite squared_errors_by_row in Hscore.
      rewrite map_map in Hscore.
      destruct Hscore as (Hone & Hshare).
      split; [rewrite Hone; apply sum_squares_zero | exact Hshare].
  - intros Hn Hseed. destruct (Nat.ltb_spec n 2); [lia |].
    apply seed_in_range in Hseed. rewrite Hseed. eexists. reflexivity.
  - intros Hbad. destruct (Nat.ltb_spec n 2); [reflexivity |].
    destruct Hbad as [Hn | Hseed]; [lia |].
    apply seed_out_of_range in Hseed. rewrite Hseed. reflexivity.
Qed.

End TrainRegion.

(** ** main *)

Lemma length_range_index {A} (rows : list A) :
  length (range_index rows) = length rows.
Proof.
  unfold range_index. rewrite length_combine, length_map, length_seq. lia.
Qed.

Section Main.

Context {L : Library} {laws : LibraryLaws L}.

(** The printed table holds every rounded row, from the largest rounded
    mean profit to the smallest. *)
Lemma final_report_ok (summary_rows : list SummaryRow) :
  exists table,
    final_report summary_rows = Ok table /\
    Permutation (range_index (map round_row summary_rows)) table /\
    descending (map (fun r => Beneficio_promedio (snd r)) table).
Proof. apply sort_values_desc_ok. Qed.

(** The seed of the script is one both libraries take. *)
Lemma RANDOM_STATE_in_range : (0 <= RANDOM_STATE <= MAX_SEED)%Z.
Proof. unfold RANDOM_STATE, MAX_SEED. lia. Qed.

(** With the three files in place a run of [main] goes through: each region
    is trained, then resampled, and the table is printed. *)
Lemma main_ok (e : entropy) (rows0 rows1 rows2 : list well) :
  files_loaded rows0 rows1 rows2 ->
  exists r0 r1 r2 s0 s1 s2 table,
    train_region e (range_index rows0) "0" RANDOM_STATE = Ok r0 /\
    train_region e (range_index rows1) "1" RANDOM_STATE = Ok r1 /\
    train_region e (range_index rows2) "2" RANDOM_STATE = Ok r2 /\
    bootstrap_with_defaults e r0 = Ok s0 /\
    bootstrap_with_defaults e r1 = Ok s1 /\
    bootstrap_with_defaults e r2 = Ok s2 /\
    final_report [summary_row r0 s0; summary_row r1 s1; summary_row r2 s2]
    = Ok table /\
    map region [r0; r1; r2] = ["0"; "1"; "2"]%string /\
    main e = Ok {| region_results := [r0; r1; r2];
                   bootstrap_stats := [s0; s1; s2];
                   report := table |}.
Proof.
  intros (H0 & H1 & H2 & Hl0 & Hl1 & Hl2).
  destruct (@train_region_ok L laws e (range_index rows0) "0"%string
              RANDOM_STATE)
    as (r0 & T0 & N0 & I0 & E0);
    [rewrite length_range_index; exact Hl0 | apply RANDOM_STATE_in_range |].
  destruct (@train_region_ok L laws e (range_index rows1) "1"%string
              RANDOM_STATE)
    as (r1 & T1 & N1 & I1 & E1);
    [rewrite length_range_index; exact Hl1 | apply RANDOM_STATE_in_range |].
  destruct (@train_region_ok L laws e (range_index rows2) "2"%string
              RANDOM_STATE)
    as (r2 & T2 & N2 & I2 & E2);
    [rewrite length_range_index; exact Hl2 | apply RANDOM_STATE_in_range |].
  assert (Hboot : forall res,
            index (target_valid res) = index (preds_valid res) ->
            target_valid res <> [] ->
            exists stats, bootstrap_with_defaults e res = Ok stats).
  { intros res Hi He. unfold bootstrap_with_defaults.
    apply bootstrap_profit_returns; auto; try reflexivity; discriminate. }
  destruct (Hboot r0 I0 E0) as (s0 & B0).
  destruct (Hboot r1 I1 E1) as (s1 & B1).
  destruct (Hboot r2 I2 E2) as (s2 & B2).
  destruct (final_report_ok
              [summary_row r0 s0; summary_row r1 s1; summary_row r2 s2])
    as (table & F & _).
  exists r0, r1, r2, s0, s1, s2, table.
  repeat (split; [assumption |]).
  split; [simpl; rewrite N0, N1, N2; reflexivity |].
  unfold main, load_region_data. rewrite H0, H1, H2.
  cbn [bind mapM fst snd]. rewrite T0, T1, T2.
  cbn [bind mapM].
  unfold bootstrap_with_defaults in B0, B1, B2. rewrite B0, B1, B2.
  cbn [bind mapM map fst snd]. rewrite F. reflexivity.
Qed.

Lemma load_region_data_inv path_region_0 path_region_1 path_region_2 d :
  load_region_data path_region_0 path_region_1 path_region_2 = Ok d ->
  exists rows0 rows1 rows2,
    read_csv path_region_0 = Ok rows0 /\
    read_csv path_region_1 = Ok rows1 /\
    read_csv path_region_2 = Ok rows2 /\
    d = [("0"%string, range_index rows0); ("1"%string, range_index rows1);
         ("2"%string, range_index rows2)].
Proof.
  unfold load_region_data. intros H.
  invert_bind H as rows0 H0. invert_bind H as rows1 H1.
  invert_bind H as rows2 H2. injection H as <-.
  exists rows0, rows1, rows2. auto.
Qed.

(** C5: the dict of [load_region_data] has the keys "0", "1", "2" and no
    other, each bound to the frame read from the matching path; a run of
    [main] trains once on each of the three frames, resamples once each of
    the three results, and prints one row per region. *)
Theorem three_regions_each_once (e : entropy) (rows0 rows1 rows2 : list well) :
  (forall path_region_0 path_region_1 path_region_2 d,
     load_region_data path_region_0 path_region_1 path_region_2 = Ok d ->
     map fst d = ["0"; "1"; "2"]%string /\
     exists a b c,
       read_csv path_region_0 = Ok a /\ read_csv path_region_1 = Ok b /\
       read_csv path_region_2 = Ok c /\
       map snd d = [range_index a; range_index b; range_index c]) /\
  (files_loaded rows0 rows1 rows2 ->
   exists out,
     main e = Ok out /\
     map region (region_results out) = ["0"; "1"; "2"]%string /\
     Forall2 (fun df res => train_region e df (region res) RANDOM_STATE = Ok res)
       [range_index rows0; range_index rows1; range_index rows2]
       (region_results out) /\
     Forall2 (fun res stats => bootstrap_with_defaults e res = Ok stats)
       (region_results out) (bootstrap_stats out) /\
     Permutation (map Region (values (report out))) ["0"; "1"; "2"]%string).
Proof.
  split.
  - intros p0 p1 p2 d H. apply load_region_data_inv in H.
    destruct H as (a & b & c & Ha & Hb & Hc & ->).
    split; [reflexivity |]. exists a, b, c. auto.
  - intros Hfiles.
    destruct (main_ok e Hfiles)
      as (r0 & r1 & r2 & s0 & s1 & s2 & table
          & T0 & T1 & T2 & B0 & B1 & B2 & F & Hnames & Hmain).
    eexists. split; [exact Hmain |].
    cbn [region_results bootstrap_stats report].
    injection Hnames as N0 N1 N2.
    split; [simpl; rewrite N0, N1, N2; reflexivity |].
    split; [repeat constructor; rewrite ?N0, ?N1, ?N2; assumption |].
    split; [repeat constructor; assumption |].
    destruct (final_report_ok
                [summary_row r0 s0; summary_row r1 s1; summary_row r2 s2])
      as (table' & F' & Hperm & _).
    rewrite F in F'. injection F' as <-.
    apply (Permutation_map (fun r => Region (snd r))) in Hperm.
    unfold values. rewrite map_map.
    eapply Permutation_trans; [apply Permutation_sym; exact Hperm |].
    simpl. rewrite N0, N1, N2. apply Permutation_refl.
Qed.

(** C6: the bootstrap loop makes exactly [n_iter] turns, each appending one
    profit and stepping the generator once, then stops; and a run of [main]
    on readable files comes to its end, having made 1000 turns for each of
    the three regions. *)
Theorem pipeline_terminates :
  (forall target_valid predictions_valid indices n_iter n_wells_in_sample
          n_top_wells budget revenue_per_unit g g' profits,
     bootstrap_loop target_valid predictions_valid indices n_iter
       n_wells_in_sample n_top_wells budget revenue_per_unit g
     = Ok (g', profits) ->
     length profits = Z.to_nat n_iter /\
     g' = advance g (length indices) (Z.to_nat n_wells_in_sample)
            (Z.to_nat n_iter)) /\
  (forall e rows0 rows1 rows2,
     files_loaded rows0 rows1 rows2 ->
     exists out,
       main e = Ok out /\
       length (region_results out) = 3%nat /\
       Forall (fun stats => length (profits stats) = 1000%nat)
         (bootstrap_stats out) /\
       length (bootstrap_stats out) = 3%nat /\
       length (report out) = 3%nat).
Proof.
  split.
  - intros t p indices n_iter nw nt b r g g' ps H.
    unfold bootstrap_loop in H. apply for_range_bootstrap_inv in H.
    destruct H as (new & -> & Hlen & _ & _ & Hg & _). auto.
  - intros e rows0 rows1 rows2 Hfiles.
    destruct (main_ok e Hfiles)
      as (r0 & r1 & r2 & s0 & s1 & s2 & table
          & _ & _ & _ & B0 & B1 & B2 & F & _ & Hmain).
    eexists. split; [exact Hmain |].
    cbn [region_results bootstrap_stats report].
    split; [reflexivity |].
    assert (Hturns : forall res stats,
              bootstrap_with_defaults e res = Ok stats ->
              length (profits stats) = 1000%nat).
    { intros res stats H. apply bootstrap_profit_inv in H.
      destruct H as (_ & _ & _ & _ & _ & Hlen & _). exact Hlen. }
    split; [repeat constructor; eapply Hturns; eassumption |].
    split; [reflexivity |].
    destruct (final_report_ok
                [summary_row r0 s0; summary_row r1 s1; summary_row r2 s2])
      as (table' & F' & Hperm & _).
    rewrite F in F'. injection F' as <-.
    rewrite <- (Permutation_length Hperm), length_range_index. reflexivity.
Qed.

(** C7: the result of [train_region], of [bootstrap_profit] and of the whole
    run does not depend on the entropy of the run: every generator is
    seeded, [main] with 12345. *)
Theorem seeded_runs_agree (e1 e2 : entropy) :
  (forall df region_name random_state,
     train_region e1 df region_name random_state
     = train_region e2 df region_name random_state) /\
  (forall target_valid predictions_valid n_iter n_wells_in_sample
          n_top_wells budget revenue_per_unit random_state,
     bootstrap_profit e1 target_valid predictions_valid n_iter
       n_wells_in_sample n_top_wells budget revenue_per_unit random_state
     = bootstrap_profit e2 target_valid predictions_valid n_iter
         n_wells_in_sample n_top_wells budget revenue_per_unit random_state) /\
  main e1 = main e2.
Proof.
  repeat split; reflexivity.
Qed.

End Main.

(** ** The ranking of the final report *)

Lemma map_snd_combine {A B} (a : list A) (b : list B) :
  length a = length b -> map snd (combine a b) = b.
Proof.
  revert a. induction b as [| y b IH]; intros [| x a] H; simpl in *;
    try reflexivity; try discriminate.
  rewrite IH by lia. reflexivity.
Qed.

Lemma values_range_index {A} (rows : list A) : values (range_index rows) = rows.
Proof.
  unfold values, range_index. apply map_snd_combine.
  rewrite length_map, length_seq. reflexivity.
Qed.

Lemma map_snd_range_index {A B} (f : A -> B) (rows : list A) :
  map (fun r => f (snd r)) (range_index rows) = map f rows.
Proof.
  transitivity (map f (map snd (range_index rows)));
    [rewrite map_map; reflexivity |].
  change (map snd (range_index rows)) with (values (range_index rows)).
  rewrite values_range_index. reflexivity.
Qed.

(** In a frame sorted from the largest key, the first row has the largest. *)
Lemma top_is_largest {A} (key : A -> Q) (table : Frame A) top x :
  descending (map (fun r => key (snd r)) table) ->
  hd_error (values table) = Some top -> In x (values table) ->
  key x <= key top.
Proof.
  destruct table as [| [l t] table]; simpl; [discriminate |].
  intros Hs Ht Hx. injection Ht as <-.
  inversion Hs as [| ? ? _ Hall]; subst.
  destruct Hx as [<- | Hx]; [apply Qle_refl |].
  rewrite Forall_forall in Hall. apply Hall.
  unfold values in Hx. apply in_map_iff in Hx.
  destruct Hx as (r & <- & Hr). apply in_map_iff. exists r. auto.
Qed.

(** C3, refuted as stated: on the table of [risky_and_safe] the region
    printed first is the one with 8% of losses, although the other region
    meets every limit between 1% and 8% and this one does not. *)
Lemma final_report_ignores_risk :
  exists table,
    final_report (L := Toy.library) risky_and_safe = Ok table /\
    map (fun r => Region (snd r)) table = ["0"; "1"]%string /\
    forall limit, 1 <= limit -> limit < 8 ->
                  ~ first_is_best_within_risk limit table.
Proof.
  eexists. split; [vm_compute; reflexivity |]. split; [reflexivity |].
  intros limit Hlo Hhi Hclaim.
  destruct (Hclaim _ eq_refl) as [Hrisk _].
  - eexists. split; [right; left; reflexivity |].
    unfold Riesgo_de_perdida, Qle in *. simpl in *. lia.
  - unfold Riesgo_de_perdida, Qle, Qlt in *. simpl in *. lia.
Qed.

Section Ranking.

Context {L : Library} {laws : LibraryLaws L}.

(** C3, amended: the table keeps every region, the one printed first has
    the largest rounded mean profit of all of them, and the order of the
    regions is decided by the mean profits alone, whatever the risks; in a
    run of [main] the table is the one of the three regions. *)
Theorem first_region_maximises_mean (summary_rows : list SummaryRow) :
  (exists table,
     final_report summary_rows = Ok table /\
     Permutation (values table) (map round_row summary_rows) /\
     (forall top r,
        hd_error (values table) = Some top -> In r summary_rows ->
        round2 (Beneficio_promedio r) <= Beneficio_promedio top) /\
     (forall other_rows,
        map Region other_rows = map Region summary_rows ->
        map Beneficio_promedio other_rows
        = map Beneficio_promedio summary_rows ->
        exists other_table,
          final_report other_rows = Ok other_table /\
          map Region (values other_table) = map Region (values table))) /\
  (forall e rows0 rows1 rows2,
     files_loaded rows0 rows1 rows2 ->
     exists out,
       main e = Ok out /\
       final_report
         (map (fun rs => summary_row (fst rs) (snd rs))
              (combine (region_results out) (bootstrap_stats out)))
       = Ok (report out)).
Proof.
  split.
  - destruct (final_report_ok summary_rows) as (table & F & Hperm & Hdesc).
    exists table. split; [exact F |].
    assert (Hvalues : Permutation (values table) (map round_row summary_rows)).
    { apply (Permutation_map snd) in Hperm. fold (values table) in Hperm.
      fold (values (range_index (map round_row summary_rows))) in Hperm.
      rewrite values_range_index in Hperm. apply Permutation_sym, Hperm. }
    split; [exact Hvalues |]. split.
    + intros top r Htop Hr.
      assert (Hin : In (round_row r) (values table)).
      { eapply Permutation_in; [apply Permutation_sym, Hvalues |].
        apply in_map, Hr. }
      change (round2 (Beneficio_promedio r))
        with (Beneficio_promedio (round_row r)).
      eapply top_is_largest; eauto.
    + intros other Hregions Hmeans.
      destruct (final_report_ok other) as (table' & F' & _).
      exists table'. split; [exact F' |].
      unfold final_report, sort_values_desc in F, F'.
      rewrite !map_snd_range_index, !map_map in F, F'.
      change (map (fun x => Beneficio_promedio (round_row x)))
        with (map (fun x => round2 (Beneficio_promedio x))) in F, F'.
      rewrite <- !(map_map Beneficio_promedio round2) in F, F'.
      rewrite Hmeans in F'.
      apply (take_map (fun r => Region (snd r))) in F, F'.
      rewrite !map_snd_range_index, !map_map in F, F'.
      change (map (fun x => Region (round_row x))) with (map Region) in F, F'.
      rewrite Hregions, F in F'. injection F' as F'.
      unfold values. rewrite !map_map. symmetry. exact F'.
  - intros e rows0 rows1 rows2 Hfiles.
    destruct (main_ok e Hfiles)
      as (r0 & r1 & r2 & s0 & s1 & s2 & table
          & _ & _ & _ & _ & _ & _ & F & _ & Hmain).
    eexists. split; [exact Hmain |]. exact F.
Qed.

End Ranking.

(** ** calculate_profit on a unique index

    Where no label repeats, [calculate_profit] does what its docstring
    says: it adds the production of the [n_top_wells] best predicted wells,
    and of all the wells once [n_top_wells] reaches their number. *)

Lemma flat_map_ext_in {A B} (f g : A -> list B) (l : list A) :
  (forall a, In a l -> f a = g a) -> flat_map f l = flat_map g l.
Proof.
  induction l as [| a l IH]; simpl; intros H; [reflexivity |].
  rewrite (H a) by (left; reflexivity).
  rewrite IH by (intros b Hb; apply H; right; exact Hb). reflexivity.
Qed.

Lemma flat_map_Permutation {A B} (f : A -> list B) (l l' : list A) :
  Permutation l l' -> Permutation (flat_map f l) (flat_map f l').
Proof.
  induction 1 as [| a l l' _ IH | a b l | l l' l'' _ IH1 _ IH2]; simpl.
  - apply Permutation_refl.
  - apply Permutation_app_head, IH.
  - rewrite !app_assoc. apply Permutation_app_tail, Permutation_app_comm.
  - eapply Permutation_trans; eauto.
Qed.

Lemma flat_map_singleton {A} (l : list A) : flat_map (fun a => [a]) l = l.
Proof.
  induction l as [| a l IH]; simpl; [| rewrite IH]; reflexivity.
Qed.

Lemma filter_eq_NoDup (l : list label) k :
  NoDup l -> In k l -> filter (fun x => (x =? k)%Z) l = [k].
Proof.
  induction 1 as [| x l Hx Hnd IH]; simpl; intros Hin; [contradiction |].
  destruct (Z.eqb_spec x k) as [-> | Hne].
  - f_equal. clear IH Hin. induction l as [| y l IH]; simpl; [reflexivity |].
    destruct (Z.eqb_spec y k) as [-> | _].
    + exfalso. apply Hx. left. reflexivity.
    + apply IH.
      * intros H. apply Hx. right. exact H.
      * inversion Hnd; assumption.
  - destruct Hin as [-> | Hin]; [congruence | auto].
Qed.

(** On a unique index [loc] returns one row per key, under that key. *)
Lemma loc_unique_index {A} (s : Frame A) keys r :
  NoDup (index s) -> loc s keys = Ok r -> index r = keys.
Proof.
  intros Hnd H. pose proof (loc_keys _ _ H) as Hin.
  rewrite (loc_flat_map _ _ H), flat_map_rows_at_index.
  rewrite (flat_map_ext_in _ (fun k => [k])).
  - apply flat_map_singleton.
  - intros k Hk. apply filter_eq_NoDup; auto.
Qed.

Lemma flat_map_rows_at_self {A} (s : Frame A) :
  NoDup (index s) -> flat_map (rows_at s) (index s) = s.
Proof.
  induction s as [| [l a] s IH]; simpl; intros Hnd; [reflexivity |].
  inversion Hnd as [| ? ? Hl Hnd']; subst.
  rewrite Z.eqb_refl. fold (rows_at s l).
  replace (rows_at s l) with (@nil (label * A))
    by (symmetry; apply rows_at_nil; exact Hl).
  simpl. f_equal.
  transitivity (flat_map (rows_at s) (index s)); [| apply IH, Hnd'].
  apply flat_map_ext_in.
  intros k Hk. unfold rows_at. simpl.
  destruct (Z.eqb_spec l k) as [-> | _]; [contradiction | reflexivity].
Qed.

Section UniqueIndex.

Context {L : Library} {laws : LibraryLaws L}.

Variables (target_valid predictions_valid : Series).
Variables (budget revenue_per_unit : Q) (n_wells_in_sample n_top_wells : Z).

Hypothesis unique : NoDup (index target_valid).
Hypothesis same_index : index target_valid = index predictions_valid.

(** X3: on a unique index shared by the two series and for a non-negative
    [n_top_wells], the profit adds the production of the best
    [min(n_top_wells, number of wells)] wells by prediction, each counted
    once. *)
Lemma calculate_profit_unique_index :
  (0 <= n_top_wells)%Z ->
  exists order selected,
    Permutation predictions_valid order /\
    descending (values order) /\
    loc target_valid (index (firstn (Z.to_nat n_top_wells) order))
    = Ok selected /\
    index selected = index (firstn (Z.to_nat n_top_wells) order) /\
    length selected
    = Nat.min (Z.to_nat n_top_wells) (length target_valid) /\
    calculate_profit target_valid predictions_valid budget revenue_per_unit
      n_wells_in_sample n_top_wells
    = Ok (sum (values selected) * revenue_per_unit - budget).
Proof.
  intros Hn. unfold calculate_profit.
  destruct (sort_values_desc_ok (fun v => v) predictions_valid)
    as (order & -> & Hperm & Hdesc).
  cbn [bind]. unfold head.
  destruct (Z.leb_spec 0 n_top_wells) as [_ | Hneg]; [| lia].
  set (keys := index (firstn (Z.to_nat n_top_wells) order)).
  assert (Hin : incl keys (index target_valid)).
  { intros k Hk. rewrite same_index. unfold keys, index in *.
    apply in_map_iff in Hk. destruct Hk as (row & <- & Hrow).
    apply in_map. apply firstn_incl in Hrow.
    eapply Permutation_in; [apply Permutation_sym; exact Hperm | exact Hrow]. }
  pose proof (loc_total target_valid Hin) as Hloc.
  exists order, (flat_map (rows_at target_valid) keys).
  rewrite Hloc. cbn [bind].
  split; [exact Hperm |]. split; [exact Hdesc |]. split; [exact Hloc |].
  split; [apply (loc_unique_index _ _ unique Hloc) |].
  split; [| reflexivity].
  rewrite (loc_unique_length _ _ unique Hloc).
  unfold keys, index. rewrite length_map, length_firstn.
  rewrite <- (Permutation_length Hperm).
  rewrite <- (length_map fst predictions_valid).
  fold (index predictions_valid). rewrite <- same_index.
  unfold index. rewrite length_map. reflexivity.
Qed.

(** X4: on a unique index shared by the two series, with [n_top_wells] at
    or above the number of wells, every well is selected once and the
    revenue is that of the whole sample. *)
Lemma calculate_profit_unique_index_all :
  (Z.of_nat (length target_valid) <= n_top_wells)%Z ->
  exists p,
    calculate_profit target_valid predictions_valid budget revenue_per_unit
      n_wells_in_sample n_top_wells = Ok p /\
    p == sum (values target_valid) * revenue_per_unit - budget.
Proof.
  intros Hn. unfold calculate_profit.
  destruct (sort_values_desc_ok (fun v => v) predictions_valid)
    as (order & -> & Hperm & _).
  cbn [bind]. unfold head.
  destruct (Z.leb_spec 0 n_top_wells) as [_ | Hneg]; [| lia].
  assert (Hlen : length order = length target_valid).
  { rewrite <- (Permutation_length Hperm).
    rewrite <- (length_map fst predictions_valid).
    fold (index predictions_valid). rewrite <- same_index.
    unfold index. apply length_map. }
  rewrite firstn_all2 by lia.
  assert (Hkeys : Permutation (index order) (index target_valid)).
  { rewrite same_index. apply Permutation_map, Permutation_sym, Hperm. }
  rewrite loc_total
    by (intros k Hk; eapply Permutation_in; [exact Hkeys | exact Hk]).
  cbn [bind]. eexists. split; [reflexivity |].
  assert (Hrows : Permutation (flat_map (rows_at target_valid) (index order))
                              target_valid).
  { rewrite <- (flat_map_rows_at_self target_valid unique) at 2.
    apply flat_map_Permutation, Hkeys. }
  rewrite (sum_Permutation (Permutation_map snd Hrows)). reflexivity.
Qed.

End UniqueIndex.

(** The repeated labels come from [bootstrap_profit] itself: on a region
    of one well producing 10, a resample of two draws holds that well
    twice, and the profit of its single best well is counted as 20. *)
Lemma bootstrap_profit_feeds_repeated_labels {L : Library}
    {laws : LibraryLaws L} (e : entropy) (random_state : Z) :
  (0 <= random_state)%Z ->
  exists stats,
    bootstrap_profit e [(0%Z, 10)] [(0%Z, 5)] 1 2 1 0 1 random_state
    = Ok stats /\
    profits stats = [20].
Proof.
  intros Hseed. unfold bootstrap_profit, bootstrap_loop.
  rewrite default_rng_ok by exact Hseed. cbn [bind].
  change (Z.to_nat 1) with 1%nat. cbn [for_range index map fst].
  unfold bootstrap_iteration, choice.
  change (Z.to_nat 2) with 2%nat. change (2 <? 0)%Z with false.
  cbn [length Nat.eqb andb].
  destruct (integers (seeded_rng random_state) 1 2) as [idx g'] eqn:E.
  pose proof (integers_length (seeded_rng random_state) 1 2) as Hl.
  pose proof (integers_bound (seeded_rng random_state) 2
                (high := 1) ltac:(lia)) as Hb.
  rewrite E in Hl, Hb. simpl in Hl, Hb.
  destruct idx as [| i [| j [| k idx]]]; try discriminate.
  inversion Hb as [| ? ? Hi Hb']; subst.
  inversion Hb' as [| ? ? Hj _]; subst.
  assert (i = O) by lia. assert (j = O) by lia. subst i j.
  cbn [take nth_error bind loc rows_at filter fst Z.eqb app].
  change [(0%Z, 10); (0%Z, 10)] with twice_target.
  change [(0%Z, 5); (0%Z, 5)] with twice_pred.
  unfold calculate_profit.
  eexists. split; [rewrite sort_twice_pred; reflexivity | reflexivity].
Qed.

(** ** The statements at the executable instance *)

(** The entropy of a run is live in the model: an unseeded generator would
    differ from one run to the next. *)
Lemma unseeded_generators_differ :
  default_rng (L := Toy.library) None 1%Z
  <> default_rng (L := Toy.library) None 2%Z.
Proof. discriminate. Qed.

Lemma toy_files_loaded :
  files_loaded (L := Toy.library) (Toy.data 90) (Toy.data 60) (Toy.data 95).
Proof.
  repeat split; try reflexivity; simpl; lia.
Qed.

Lemma calculate_profit_repeated_label_witness :
  calculate_profit (L := Toy.library) twice_target twice_pred 0 1 500 1 = Ok 20
  /\ ~ 20 == sum [10] * 1 - 0.
Proof.
  exact (@calculate_profit_repeated_label Toy.library ToyLaws.laws 500%Z).
Defined.

Lemma calculate_profit_boundary_repeated_label_witness :
  calculate_profit (L := Toy.library) twice_target twice_pred 0 1 500 2 = Ok 40
  /\ ~ 40 == sum (values twice_target) * 1 - 0.
Proof.
  exact (@calculate_profit_boundary_repeated_label Toy.library ToyLaws.laws
           500%Z).
Defined.

Lemma bootstrap_profit_invariants_witness :
  exists stats,
    bootstrap_profit (L := Toy.library) 7%Z three_target three_pred
      4 3 2 60 1 12345 = Ok stats /\
    0 <= risk stats <= 1 /\
    ci_low stats <= ci_high stats /\
    Z.of_nat (length (profits stats)) = 4%Z.
Proof.
  eexists. split; [vm_compute; reflexivity |].
  apply (@bootstrap_profit_invariants Toy.library 7%Z three_target three_pred
           4 3 2 60 1 12345).
  vm_compute. reflexivity.
Defined.

Lemma bootstrap_profit_resamples_witness :
  exists stats,
    bootstrap_profit (L := Toy.library) 7%Z three_target three_pred
      4 3 2 60 1 12345 = Ok stats /\
    mapM (profit_of_sample (L := Toy.library) three_target three_pred
            60 1 3 2)
         (map (labels_at (index three_target))
              (draws (L := Toy.library) 12345%Z 3 3 4))
    = Ok (profits stats) /\
    mean_profit stats * inject_Z 4 == sum (profits stats) /\
    (count (below (ci_low stats)) (profits stats) <= 1
     <= count (upto (ci_low stats)) (profits stats))%nat /\
    (count (below (ci_high stats)) (profits stats) <= 3
     <= count (upto (ci_high stats)) (profits stats))%nat.
Proof.
  destruct (@bootstrap_profit_resamples Toy.library ToyLaws.laws 7%Z
              three_target three_pred 4 3 2 60 1 12345 eq_refl)
    as (Hinv & Hok & _).
  destruct (Hok ltac:(lia) ltac:(lia) ltac:(left; discriminate) ltac:(lia))
    as (stats & Hstats).
  exists stats. split; [exact Hstats |].
  destruct (Hinv stats Hstats)
    as (_ & _ & _ & Hprofits & Hmean & _ & _ & Hlow & Hhigh & _).
  split; [exact Hprofits |]. split; [exact Hmean |].
  split; [exact Hlow | exact Hhigh].
Defined.

Lemma first_region_maximises_mean_witness :
  exists table,
    final_report (L := Toy.library) risky_and_safe = Ok table /\
    Permutation (values table) (map round_row risky_and_safe) /\
    forall top r,
      hd_error (values table) = Some top -> In r risky_and_safe ->
      round2 (Beneficio_promedio r) <= Beneficio_promedio top.
Proof.
  destruct (@first_region_maximises_mean Toy.library ToyLaws.laws
              risky_and_safe) as ((table & F & Hperm & Htop & _) & _).
  exists table. auto.
Defined.

Lemma train_region_split_fit_validate_witness :
  exists res,
    train_region (L := Toy.library) 7%Z (range_index (Toy.data 90)) "0" 12345
    = Ok res /\
    length (target_valid res) = 2%nat /\
    exists mse, rmse res = sqrt (Library := Toy.library) mse.
Proof.
  destruct (@train_region_split_fit_validate Toy.library ToyLaws.laws 7%Z
              (range_index (Toy.data 90)) "0"%string 12345%Z)
    as (Hinv & Hok & _).
  destruct (Hok ltac:(simpl; lia) ltac:(unfold MAX_SEED; lia))
    as (res & Hres).
  exists res. split; [exact Hres |].
  destruct (Hinv res Hres)
    as (_ & _ & train & valid & _ & _ & _ & Hlen & _ & _ & _ & _ & _ & _
        & Htv & _ & _ & _ & _ & _ & (mse & Hrmse & _) & _).
  split; [rewrite Htv; unfold select_product; rewrite length_map; exact Hlen |].
  exists mse. exact Hrmse.
Defined.

Lemma three_regions_each_once_witness :
  exists out,
    main (L := Toy.library) 7%Z = Ok out /\
    map region (region_results out) = ["0"; "1"; "2"]%string /\
    Permutation (map Region (values (report out))) ["0"; "1"; "2"]%string.
Proof.
  destruct (@three_regions_each_once Toy.library ToyLaws.laws 7%Z
              (Toy.data 90) (Toy.data 60) (Toy.data 95)) as (_ & Hmain).
  destruct (Hmain toy_files_loaded) as (out & Hout & Hnames & _ & _ & Hperm).
  exists out. auto.
Defined.

Lemma pipeline_terminates_witness :
  exists out,
    main (L := Toy.library) 7%Z = Ok out /\
    Forall (fun stats => length (profits stats) = 1000%nat)
      (bootstrap_stats out) /\
    length (report out) = 3%nat.
Proof.
  destruct (@pipeline_terminates Toy.library ToyLaws.laws) as (_ & Hmain).
  destruct (Hmain 7%Z _ _ _ toy_files_loaded)
    as (out & Hout & _ & Hturns & _ & Hrows).
  exists out. auto.
Defined.

(** * Further properties of the code *)

(** ** calculate_profit: missing labels, repeated labels, empty selections *)

Lemma loc_Raise {A} (s : Frame A) keys e : loc s keys = Raise e -> e = KeyError.
Proof.
  induction keys as [| k ks IH]; simpl; [discriminate |].
  destruct (rows_at s k) as [| y rows]; [intros H; congruence |].
  destruct (loc s ks) as [r | e']; simpl; [discriminate |].
  intros H. injection H as <-. apply IH. reflexivity.
Qed.

Lemma loc_missing {A} (s : Frame A) keys :
  ~ incl keys (index s) -> loc s keys = Raise KeyError.
Proof.
  intros Hnot. destruct (loc s keys) as [r | e] eqn:E.
  - exfalso. apply Hnot. eapply loc_keys. exact E.
  - rewrite (loc_Raise _ _ E). reflexivity.
Qed.

Lemma rows_at_count {A} (s : Frame A) k :
  length (rows_at s k) = count_occ Z.eq_dec (index s) k.
Proof.
  unfold rows_at, index. induction s as [| [l a] s IH]; simpl; [reflexivity |].
  destruct (Z.eqb_spec l k) as [-> | Hne].
  - destruct (Z.eq_dec k k) as [_ | Hn]; [| congruence]. simpl. rewrite IH.
    reflexivity.
  - destruct (Z.eq_dec l k) as [He | _]; [congruence | exact IH].
Qed.

Lemma flat_map_rows_at_length {A} (s : Frame A) keys :
  length (flat_map (rows_at s) keys)
  = list_sum (map (count_occ Z.eq_dec (index s)) keys).
Proof.
  induction keys as [| k ks IH]; simpl; [reflexivity |].
  rewrite length_app, rows_at_count, IH. reflexivity.
Qed.

Section CalculateProfitEdges.

Context {L : Library} {laws : LibraryLaws L}.

Variables (target_valid predictions_valid : Series).
Variables (budget revenue_per_unit : Q) (n_wells_in_sample n_top_wells : Z).

(** X1: [calculate_profit] returns exactly when every selected label is in
    the index of [target_valid], and raises KeyError otherwise; in
    particular it raises as soon as all the wells are selected and one label
    of the predictions is unknown to the targets. *)
Theorem calculate_profit_KeyError :
  exists order,
    sort_values_desc (fun v => v) predictions_valid = Ok order /\
    Permutation predictions_valid order /\
    (incl (index (head order n_top_wells)) (index target_valid) ->
     calculate_profit target_valid predictions_valid budget revenue_per_unit
       n_wells_in_sample n_top_wells
     = Ok (sum (values (flat_map (rows_at target_valid)
                          (index (head order n_top_wells))))
           * revenue_per_unit - budget)) /\
    (~ incl (index (head order n_top_wells)) (index target_valid) ->
     calculate_profit target_valid predictions_valid budget revenue_per_unit
       n_wells_in_sample n_top_wells = Raise KeyError) /\
    ((Z.of_nat (length predictions_valid) <= n_top_wells)%Z ->
     ~ incl (index predictions_valid) (index target_valid) ->
     calculate_profit target_valid predictions_valid budget revenue_per_unit
       n_wells_in_sample n_top_wells = Raise KeyError).
Proof.
  destruct (sort_values_desc_ok (fun v => v) predictions_valid)
    as (order & Hsort & Hperm & _).
  exists order. split; [exact Hsort |]. split; [exact Hperm |].
  unfold calculate_profit. rewrite Hsort. cbn [bind].
  split; [| split].
  - intros Hin. rewrite (loc_total _ Hin). reflexivity.
  - intros Hnot. rewrite (loc_missing _ Hnot). reflexivity.
  - intros Hall Hnot. rewrite loc_missing; [reflexivity |].
    intros Hin. apply Hnot. intros k Hk. apply Hin.
    unfold head. destruct (Z.leb_spec 0 n_top_wells) as [_ | Hneg]; [| lia].
    rewrite firstn_all2
      by (rewrite <- (Permutation_length Hperm); lia).
    eapply Permutation_in; [apply Permutation_map; exact Hperm | exact Hk].
Qed.

(** X2: whenever [calculate_profit] returns, each selected label has
    contributed as many production values as there are rows of
    [target_valid] under that label. *)
Theorem calculate_profit_counts_copies (v : Q) :
  calculate_profit target_valid predictions_valid budget revenue_per_unit
    n_wells_in_sample n_top_wells = Ok v ->
  exists order selected,
    Permutation predictions_valid order /\
    descending (values order) /\
    loc target_valid (index (head order n_top_wells)) = Ok selected /\
    v = sum (values selected) * revenue_per_unit - budget /\
    length selected
    = list_sum (map (count_occ Z.eq_dec (index target_valid))
                    (index (head order n_top_wells))).
Proof.
  unfold calculate_profit.
  destruct (sort_values_desc_ok (fun v => v) predictions_valid)
    as (order & -> & Hperm & Hdesc).
  cbn [bind]. intros H. invert_bind H as selected Hloc. injection H as <-.
  exists order, selected. repeat split; auto.
  rewrite (loc_flat_map _ _ Hloc). apply flat_map_rows_at_length.
Qed.

(** X5: when no well is selected ([n_top_wells] is 0, or negative and at
    least as large as the number of wells), the profit is minus the budget,
    whatever the two series and their labels. *)
Theorem calculate_profit_no_selection :
  (n_top_wells = 0 \/
   Z.of_nat (length predictions_valid) <= - n_top_wells)%Z ->
  exists v,
    calculate_profit target_valid predictions_valid budget revenue_per_unit
      n_wells_in_sample n_top_wells = Ok v /\
    v == - budget.
Proof.
  intros Hn. unfold calculate_profit.
  destruct (sort_values_desc_ok (fun v => v) predictions_valid)
    as (order & -> & Hperm & _).
  cbn [bind].
  assert (Hhead : head order n_top_wells = []).
  { unfold head. pose proof (Permutation_length Hperm) as Hlen.
    destruct (Z.leb_spec 0 n_top_wells) as [Hpos | Hneg].
    - replace (Z.to_nat n_top_wells) with O by lia. reflexivity.
    - replace (length order - Z.to_nat (- n_top_wells))%nat with O by lia.
      reflexivity. }
  rewrite Hhead. simpl. eexists. split; [reflexivity |]. ring.
Qed.

(** X6: a negative [n_top_wells] is not rejected: on a unique index shared
    by the two series the [|n_top_wells|] worst predicted wells are left out
    and all the others are counted once. *)
Theorem calculate_profit_negative_top :
  NoDup (index target_valid) ->
  index target_valid = index predictions_valid ->
  (n_top_wells < 0)%Z ->
  exists order selected,
    Permutation predictions_valid order /\
    descending (values order) /\
    loc target_valid
      (index (firstn (length order - Z.to_nat (- n_top_wells)) order))
    = Ok selected /\
    length selected
    = (length target_valid - Z.to_nat (- n_top_wells))%nat /\
    calculate_profit target_valid predictions_valid budget revenue_per_unit
      n_wells_in_sample n_top_wells
    = Ok (sum (values selected) * revenue_per_unit - budget).
Proof.
  intros Hunique Hsame Hneg. unfold calculate_profit.
  destruct (sort_values_desc_ok (fun v => v) predictions_valid)
    as (order & -> & Hperm & Hdesc).
  cbn [bind]. unfold head.
  destruct (Z.leb_spec 0 n_top_wells) as [Hpos | _]; [lia |].
  set (keys := index (firstn (length order - Z.to_nat (- n_top_wells)) order)).
  assert (Hin : incl keys (index target_valid)).
  { intros k Hk. rewrite Hsame. unfold keys, index in *.
    apply in_map_iff in Hk. destruct Hk as (row & <- & Hrow).
    apply in_map. apply firstn_incl in Hrow.
    eapply Permutation_in; [apply Permutation_sym; exact Hperm | exact Hrow]. }
  pose proof (loc_total target_valid Hin) as Hloc.
  exists order, (flat_map (rows_at target_valid) keys).
  rewrite Hloc. cbn [bind].
  split; [exact Hperm |]. split; [exact Hdesc |]. split; [exact Hloc |].
  split; [| reflexivity].
  rewrite (loc_unique_length _ _ Hunique Hloc).
  assert (Hlen : length order = length target_valid).
  { rewrite <- (Permutation_length Hperm).
    rewrite <- (length_map fst predictions_valid).
    fold (index predictions_valid). rewrite <- Hsame.
    unfold index. apply length_map. }
  unfold keys, index. rewrite length_map, length_firstn. lia.
Qed.

End CalculateProfitEdges.

(** ** bootstrap_profit: statistics against the range of the profits *)

Lemma sum_bounds l a b :
  (forall p, In p l -> a <= p <= b) ->
  inject_Z (Z.of_nat (length l)) * a <= sum l /\
  sum l <= inject_Z (Z.of_nat (length l)) * b.
Proof.
  induction l as [| x l IH]; intros H.
  - cbn [length sum fold_right]. change (inject_Z (Z.of_nat 0)) with 0.
    split; lra.
  - cbn [length sum fold_right]. fold (sum l).
    rewrite Nat2Z.inj_succ, <- Z.add_1_l, inject_Z_plus.
    change (inject_Z 1) with 1.
    destruct (H x (or_introl eq_refl)) as [Ha Hb].
    destruct IH as [IHa IHb]; [intros p Hp; apply H; right; exact Hp |].
    split; lra.
Qed.

Lemma mean_bounds l a b :
  l <> [] -> (forall p, In p l -> a <= p <= b) -> a <= mean l <= b.
Proof.
  intros Hne H. pose proof (sum_bounds l H) as [Ha Hb].
  pose proof (mean_times_length Hne) as Hm.
  assert (Hn : 0 < inject_Z (Z.of_nat (length l))).
  { change 0 with (inject_Z 0). rewrite <- Zlt_Qlt.
    destruct l; [congruence | simpl; lia]. }
  set (n := inject_Z (Z.of_nat (length l))) in *.
  split.
  - apply (Qmult_le_r _ _ n Hn). rewrite Hm. lra.
  - apply (Qmult_le_r _ _ n Hn). rewrite Hm. lra.
Qed.

Lemma percentile_bounds l q v a b :
  percentile l q = Ok v -> (forall p, In p l -> a <= p <= b) -> a <= v <= b.
Proof.
  intros H Hall. apply percentile_inv in H.
  destruct H as (Hq & x0 & rest & Hsort & ->).
  pose proof (sort_ascending l) as Hs. rewrite Hsort in Hs.
  pose proof (interpolate_between Hs Hq) as [Hlo Hhi].
  assert (Hin : forall i, a <= nth i (x0 :: rest) x0 <= b).
  { intros i. apply Hall.
    eapply Permutation_in; [apply Permutation_sym, QSort.Permuted_sort |].
    rewrite Hsort.
    destruct (nth_in_or_default i (x0 :: rest) x0) as [Hi | ->];
      [exact Hi | left; reflexivity]. }
  split.
  - eapply Qle_trans; [apply Hin | exact Hlo].
  - eapply Qle_trans; [exact Hhi | apply Hin].
Qed.

Lemma share_of_losses_extremes l :
  l <> [] ->
  (mean (map is_loss l) == 0 <-> forall p, In p l -> 0 <= p) /\
  (mean (map is_loss l) == 1 <-> forall p, In p l -> p < 0).
Proof.
  intros Hne.
  assert (Hne' : map is_loss l <> []) by (destruct l; [congruence | discriminate]).
  pose proof (mean_times_length Hne') as Hm.
  rewrite sum_is_loss, length_map in Hm.
  assert (Hn : ~ inject_Z (Z.of_nat (length l)) == 0).
  { change 0 with (inject_Z 0). rewrite inject_Z_injective.
    destruct l; [congruence | simpl; lia]. }
  set (r := mean (map is_loss l)) in *.
  assert (Hloss : forall p, negb (Qle_bool 0 p) = true <-> p < 0).
  { intros p. destruct (Qle_bool 0 p) eqn:E; simpl.
    - apply Qle_bool_iff in E. split; [discriminate | lra].
    - split; [intros _ | reflexivity].
      apply Qnot_le_lt. intros H. apply Qle_bool_iff in H. congruence. }
  split; split.
  - intros Hr. rewrite Hr, Qmult_0_l in Hm.
    change 0 with (inject_Z 0) in Hm. rewrite inject_Z_injective in Hm.
    assert (Hnil : losses l = []) by (apply length_zero_iff_nil; lia).
    intros p Hp. apply (proj1 (filter_none _ _) Hnil) in Hp.
    apply Qnot_lt_le. intros Hlt. apply Hloss in Hlt. congruence.
  - intros Hall.
    assert (Hnil : losses l = []).
    { apply filter_none. intros p Hp.
      destruct (negb (Qle_bool 0 p)) eqn:E; [| reflexivity].
      apply Hloss in E. specialize (Hall p Hp). lra. }
    rewrite Hnil in Hm. simpl in Hm.
    apply (Qmult_inj_r _ _ _ Hn). rewrite Hm. ring.
  - intros Hr. rewrite Hr, Qmult_1_l in Hm.
    rewrite inject_Z_injective in Hm.
    intros p Hp. apply Hloss.
    apply (proj1 (filter_all (fun x => negb (Qle_bool 0 x)) l));
      [unfold losses in Hm; lia | exact Hp].
  - intros Hall.
    assert (Hlen : length (losses l) = length l).
    { apply filter_all. intros p Hp. apply Hloss, Hall, Hp. }
    rewrite Hlen in Hm.
    apply (Qmult_inj_r _ _ _ Hn). rewrite Hm. ring.
Qed.

Section BootstrapStatistics.

Context {L : Library}.

Variables (e : entropy) (target_valid predictions_valid : Series).
Variables (n_iter n_wells_in_sample n_top_wells : Z).
Variables (budget revenue_per_unit : Q) (random_state : Z).

(** X10: whenever [bootstrap_profit] returns, the mean profit and both ends
    of the interval lie between any two bounds that hold for every
    simulated profit. *)
Theorem bootstrap_statistics_within_profits (stats : Stats) (a b : Q) :
  bootstrap_profit e target_valid predictions_valid n_iter n_wells_in_sample
    n_top_wells budget revenue_per_unit random_state = Ok stats ->
  (forall p, In p (profits stats) -> a <= p <= b) ->
  a <= mean_profit stats <= b /\
  a <= ci_low stats <= b /\
  a <= ci_high stats <= b.
Proof.
  intros H Hall. apply bootstrap_profit_inv in H.
  destruct H as (_ & -> & Hlo & Hhi & _ & Hlen & Hpos).
  split; [| split].
  - apply mean_bounds; [| exact Hall].
    destruct (profits stats); [simpl in Hlen; lia | discriminate].
  - eapply percentile_bounds; eauto.
  - eapply percentile_bounds; eauto.
Qed.

(** X11: whenever [bootstrap_profit] returns, the risk is 0 exactly when no
    simulated profit is negative, and 1 exactly when all of them are. *)
Theorem bootstrap_risk_extremes (stats : Stats) :
  bootstrap_profit e target_valid predictions_valid n_iter n_wells_in_sample
    n_top_wells budget revenue_per_unit random_state = Ok stats ->
  (risk stats == 0 <-> forall p, In p (profits stats) -> 0 <= p) /\
  (risk stats == 1 <-> forall p, In p (profits stats) -> p < 0).
Proof.
  intros H. apply bootstrap_profit_inv in H.
  destruct H as (_ & _ & _ & _ & -> & Hlen & Hpos).
  apply share_of_losses_extremes.
  destruct (profits stats); [simpl in Hlen; lia | discriminate].
Qed.

(** X7: with [n_iter] at or below zero [bootstrap_profit] never returns:
    a negative seed is refused with ValueError before the loop; otherwise
    the loop never runs and the percentile of the empty array of profits
    raises IndexError, whatever the series, the sample size and the
    number of wells selected. *)
Theorem bootstrap_profit_no_iteration :
  (n_iter <= 0)%Z ->
  ((0 <= random_state)%Z ->
   bootstrap_profit e target_valid predictions_valid n_iter
     n_wells_in_sample n_top_wells budget revenue_per_unit random_state
   = Raise IndexError) /\
  ((random_state < 0)%Z ->
   bootstrap_profit e target_valid predictions_valid n_iter
     n_wells_in_sample n_top_wells budget revenue_per_unit random_state
   = Raise ValueError).
Proof.
  intros Hn. split; intros Hseed.
  - unfold bootstrap_profit, bootstrap_loop.
    rewrite default_rng_ok by exact Hseed. cbn [bind].
    replace (Z.to_nat n_iter) with O by lia. reflexivity.
  - unfold bootstrap_profit.
    rewrite default_rng_negative by exact Hseed. reflexivity.
Qed.

(** X8: with at least one iteration, a negative [n_wells_in_sample], or a
    positive one on an empty [target_valid], makes [bootstrap_profit] raise
    ValueError at the first draw. *)
Theorem bootstrap_profit_bad_sample_size :
  (0 < n_iter)%Z ->
  (n_wells_in_sample < 0)%Z \/
  (target_valid = [] /\ n_wells_in_sample <> 0%Z) ->
  bootstrap_profit e target_valid predictions_valid n_iter n_wells_in_sample
    n_top_wells budget revenue_per_unit random_state = Raise ValueError.
Proof.
  intros Hn Hbad. unfold bootstrap_profit, bootstrap_loop.
  destruct (Z.lt_ge_cases random_state 0) as [Hseed | Hseed];
    [rewrite default_rng_negative by exact Hseed; reflexivity |].
  rewrite default_rng_ok by exact Hseed. cbn [bind].
  destruct (Z.to_nat n_iter) as [| k] eqn:E; [lia |].
  cbn [for_range]. unfold bootstrap_iteration at 1. unfold choice.
  destruct Hbad as [Hneg | [-> Hnz]].
  - destruct (Z.ltb_spec n_wells_in_sample 0) as [_ | Hge]; [| lia].
    reflexivity.
  - destruct (Z.ltb_spec n_wells_in_sample 0) as [_ | Hge]; [reflexivity |].
    destruct (Z.eqb_spec n_wells_in_sample 0) as [Hz | _]; [contradiction |].
    reflexivity.
Qed.

End BootstrapStatistics.

(** ** bootstrap_profit: empty and oversized resamples *)

Lemma take_incl {A} (l : list A) ps r : take l ps = Ok r -> incl r l.
Proof.
  intros H a Ha. apply take_Forall2 in H.
  induction H as [| i b ps r Hi _ IH]; [contradiction |].
  destruct Ha as [<- | Ha]; [eapply nth_error_In; eauto | auto].
Qed.

Lemma In_repeat {A} (c x : A) n : In x (repeat c n) -> x = c.
Proof. intros H. eapply repeat_spec. exact H. Qed.

Section BootstrapSamples.

Context {L : Library} {laws : LibraryLaws L}.

Lemma calculate_profit_empty budget revenue_per_unit n_wells_in_sample
    n_top_wells :
  calculate_profit [] [] budget revenue_per_unit n_wells_in_sample n_top_wells
  = Ok (0 * revenue_per_unit - budget).
Proof.
  unfold calculate_profit.
  destruct (sort_values_desc_ok (fun v : Q => v) []) as (order & -> & Hperm & _).
  apply Permutation_nil in Hperm. subst order. cbn [bind].
  unfold head. rewrite !firstn_nil. destruct (0 <=? n_top_wells)%Z; reflexivity.
Qed.

Lemma bootstrap_iteration_empty_sample
    (target_valid predictions_valid : Series) indices n_top_wells
    budget revenue_per_unit g acc :
  bootstrap_iteration target_valid predictions_valid indices 0 n_top_wells
    budget revenue_per_unit (g, acc)
  = Ok (snd (integers g (length indices) 0),
        acc ++ [0 * revenue_per_unit - budget]).
Proof.
  unfold bootstrap_iteration, choice.
  change (0 <? 0)%Z with false. change (0 =? 0)%Z with true.
  cbn [negb]. rewrite andb_false_r. change (Z.to_nat 0) with O.
  pose proof (integers_length g (length indices) 0) as Hlen.
  destruct (integers g (length indices) 0) as [idx g'].
  cbn [fst snd] in *. apply length_zero_iff_nil in Hlen. subst idx.
  cbn [take bind loc]. rewrite calculate_profit_empty. reflexivity.
Qed.

Lemma for_range_empty_samples
    (target_valid predictions_valid : Series) indices n_top_wells
    budget revenue_per_unit n g acc :
  exists g',
    for_range n
      (bootstrap_iteration target_valid predictions_valid indices 0
         n_top_wells budget revenue_per_unit) (g, acc)
    = Ok (g', acc ++ repeat (0 * revenue_per_unit - budget) n).
Proof.
  revert g acc. induction n as [| n IH]; intros g acc; cbn [for_range repeat].
  - exists g. rewrite app_nil_r. reflexivity.
  - rewrite bootstrap_iteration_empty_sample. cbn [bind].
    destruct (IH (snd (integers g (length indices) 0))
                 (acc ++ [0 * revenue_per_unit - budget])) as (g' & ->).
    exists g'. rewrite <- app_assoc. reflexivity.
Qed.

(** X9: with [n_wells_in_sample = 0], at least one iteration and a seed
    that is not negative, every resample is empty, so each of the [n_iter]
    profits is minus the budget, and so are the mean and both ends of the
    interval; the risk is 1 for a positive budget and 0 otherwise.  This
    holds for any two series, even with different labels. *)
Theorem bootstrap_profit_empty_samples (e : entropy)
    (target_valid predictions_valid : Series) (n_iter n_top_wells : Z)
    (budget revenue_per_unit : Q) (random_state : Z) :
  (0 < n_iter)%Z ->
  (0 <= random_state)%Z ->
  exists stats,
    bootstrap_profit e target_valid predictions_valid n_iter 0 n_top_wells
      budget revenue_per_unit random_state = Ok stats /\
    profits stats = repeat (0 * revenue_per_unit - budget) (Z.to_nat n_iter) /\
    mean_profit stats == - budget /\
    ci_low stats == - budget /\
    ci_high stats == - budget /\
    (0 < budget -> risk stats == 1) /\
    (budget <= 0 -> risk stats == 0).
Proof.
  intros Hn Hseed. unfold bootstrap_profit, bootstrap_loop.
  rewrite default_rng_ok by exact Hseed. cbn [bind].
  destruct (for_range_empty_samples target_valid predictions_valid
              (index target_valid) n_top_wells budget revenue_per_unit
              (Z.to_nat n_iter) (seeded_rng random_state) [])
    as (g' & ->).
  cbn [bind app].
  set (c := 0 * revenue_per_unit - budget).
  set (ps := repeat c (Z.to_nat n_iter)).
  assert (Hne : ps <> []).
  { unfold ps. destruct (Z.to_nat n_iter) eqn:E; [lia | discriminate]. }
  assert (Hall : forall p, In p ps -> c <= p <= c).
  { intros p Hp. apply In_repeat in Hp. subst p. split; apply Qle_refl. }
  assert (Hc : c == - budget) by (unfold c; ring).
  destruct (percentile_nonempty (q := 5 # 2) Hne) as (lo & Hlo);
    [split; discriminate |].
  destruct (percentile_nonempty (q := 195 # 2) Hne) as (hi & Hhi);
    [split; discriminate |].
  rewrite Hlo, Hhi. cbn [bind]. eexists. split; [reflexivity |].
  cbn [profits mean_profit ci_low ci_high risk].
  split; [reflexivity |].
  pose proof (mean_bounds Hne Hall) as [Hm1 Hm2].
  pose proof (percentile_bounds _ _ Hlo Hall) as [Hl1 Hl2].
  pose proof (percentile_bounds _ _ Hhi Hall) as [Hh1 Hh2].
  split; [rewrite <- Hc; apply Qle_antisym; assumption |].
  split; [rewrite <- Hc; apply Qle_antisym; assumption |].
  split; [rewrite <- Hc; apply Qle_antisym; assumption |].
  destruct (share_of_losses_extremes Hne) as [Hzero Hone].
  split.
  - intros Hb. apply Hone. intros p Hp. apply In_repeat in Hp. subst p. lra.
  - intros Hb. apply Hzero. intros p Hp. apply In_repeat in Hp. subst p. lra.
Qed.

(** X12: a resample larger than the index it is drawn from repeats a
    label: [rng.choice] draws with replacement, so [calculate_profit] is
    then always handed a series with repeated labels. *)
Theorem oversized_resample_repeats_a_label (g g' : rng)
    (indices sample : list label) (size : Z) :
  (Z.of_nat (length indices) < size)%Z ->
  choice g indices size = Ok (sample, g') ->
  ~ NoDup sample.
Proof.
  intros Hsize H Hnd. unfold choice in H.
  destruct (size <? 0)%Z; [discriminate |].
  destruct ((length indices =? 0)%nat && negb (size =? 0)%Z); [discriminate |].
  pose proof (integers_length g (length indices) (Z.to_nat size)) as Hlen.
  destruct (integers g (length indices) (Z.to_nat size)) as [idx g''].
  cbn [fst] in Hlen.
  invert_bind H as drawn Htake. injection H as <- <-.
  pose proof (take_incl _ _ Htake) as Hincl.
  pose proof (NoDup_incl_length Hnd Hincl) as Hle.
  apply take_Forall2, Forall2_length in Htake. lia.
Qed.

End BootstrapSamples.

(** ** train_region: the score, the split and what it hands on *)

Lemma r2_score_at_most_one y_true y_pred v :
  r2_score y_true y_pred = Some v -> v <= 1.
Proof.
  unfold r2_score. destruct (length y_pred <? 2)%nat; [discriminate |].
  set (numerator := sum (squared_errors y_true y_pred)).
  set (denominator := sum (map _ y_true)).
  assert (Hnum : 0 <= numerator).
  { apply sum_nonneg. intros x Hx. unfold squared_errors in Hx.
    apply in_map_iff in Hx. destruct Hx as (tp & <- & _). apply square_nonneg. }
  assert (Hden : 0 <= denominator).
  { apply sum_nonneg. intros x Hx. apply in_map_iff in Hx.
    destruct Hx as (t & <- & _). apply square_nonneg. }
  destruct (Qeq_bool numerator 0); [intros H; injection H as <-; lra |].
  destruct (Qeq_bool denominator 0) eqn:E;
    [intros H; injection H as <-; lra |].
  intros H. injection H as <-.
  assert (Hpos : 0 < denominator).
  { apply Qeq_bool_neq in E. apply Qle_lteq in Hden.
    destruct Hden as [Hlt | Heq]; [exact Hlt |]. exfalso. apply E.
    symmetry. exact Heq. }
  assert (0 <= numerator / denominator).
  { apply Qle_shift_div_l; [exact Hpos | lra]. }
  lra.
Qed.

Lemma NoDup_app_disjoint {A} (l1 l2 : list A) :
  NoDup (l1 ++ l2) -> forall a, In a l1 -> ~ In a l2.
Proof.
  induction l1 as [| x l1 IH]; simpl; intros Hnd a Ha; [contradiction |].
  inversion Hnd as [| ? ? Hx Hnd']; subst.
  destruct Ha as [<- | Ha]; [| apply IH; assumption].
  intros Hin. apply Hx, in_or_app. right. exact Hin.
Qed.

Section TrainRegionUse.

Context {L : Library} {laws : LibraryLaws L}.

Variables (e : entropy) (df : DataFrame) (region_name : string).
Variables (random_state : Z) (res : TrainResult).

Hypothesis trained : train_region e df region_name random_state = Ok res.

(** The rows behind a returned result. *)
Lemma train_region_rows :
  (2 <= length df)%nat /\
  (0 <= random_state <= MAX_SEED)%Z /\
  exists train valid,
    Permutation df (valid ++ train) /\
    length valid = ((length df + 3) / 4)%nat /\
    model res = lstsq (values (select_features train))
                      (values (select_product train)) /\
    target_valid res = select_product valid /\
    preds_valid res
    = combine (index (select_product valid))
        (map (predict (model res)) (values (select_features valid))) /\
    r2 res = r2_score (values (target_valid res)) (values (preds_valid res)).
Proof.
  pose proof trained as H. rewrite train_region_unfold in H.
  destruct (split_rows df random_state)
    as (valid & train & Hvalid & Htrain & Hperm & Hlv & _).
  rewrite Htrain, Hvalid in H. cbn [bind] in H.
  destruct (Nat.ltb_spec (length df) 2) as [Hlt | Hge]; [discriminate |].
  destruct ((random_state <? 0) || (MAX_SEED <? random_state))%Z eqn:Hseed;
    [discriminate |].
  apply seed_in_range in Hseed.
  injection H as <-. split; [exact Hge |]. split; [exact Hseed |].
  exists train, valid. cbn [model target_valid preds_valid r2].
  repeat split; auto.
Qed.

Lemma train_region_valid_index :
  index (target_valid res) = index (preds_valid res) /\
  length (values (preds_valid res)) = ((length df + 3) / 4)%nat /\
  target_valid res <> [].
Proof.
  destruct train_region_rows
    as (Hge & _ & train & valid & _ & Hlv & _ & Htv & Hpv & _).
  assert (Hidx : index (preds_valid res) = index (select_product valid)).
  { rewrite Hpv. unfold index, values, select_product, select_features.
    rewrite !map_map. cbn [fst snd]. rewrite combine_map_same, map_map.
    reflexivity. }
  split; [rewrite Hidx, Htv; reflexivity |]. split.
  - unfold values. rewrite length_map, <- (length_map fst).
    fold (index (preds_valid res)). rewrite Hidx.
    unfold index, select_product. rewrite !length_map. exact Hlv.
  - rewrite Htv. intros Hnil. apply (f_equal (@length _)) in Hnil.
    unfold select_product in Hnil. rewrite length_map, Hlv in Hnil.
    pose proof (quarter_bounds (length df)) as (Hq & _).
    cbn [length] in Hnil. lia.
Qed.

End TrainRegionUse.

Section TrainRegionProperties.

Context {L : Library} {laws : LibraryLaws L}.

Variables (e : entropy) (df : DataFrame) (region_name : string).
Variables (random_state : Z) (res : TrainResult).

(** X13: the score [r2] of a returned result is nan exactly when the frame
    has four rows or fewer (the validation set then has a single row), and
    never exceeds 1 otherwise. *)
Theorem train_region_r2 :
  train_region e df region_name random_state = Ok res ->
  (r2 res = None <-> (length df <= 4)%nat) /\
  (forall v, r2 res = Some v -> v <= 1).
Proof.
  intros trained. pose proof trained as Hrows.
  apply train_region_rows in Hrows.
  destruct Hrows as (Hge & _ & train & valid & _ & _ & _ & _ & _ & Hr2).
  apply train_region_valid_index in trained.
  destruct trained as (_ & Hlen & _).
  rewrite Hr2. split.
  - unfold r2_score. rewrite Hlen.
    pose proof (Nat.div_mod_eq (length df + 3) 4) as Hd.
    pose proof (Nat.mod_upper_bound (length df + 3) 4 ltac:(lia)) as Hm.
    destruct (Nat.ltb_spec ((length df + 3) / 4) 2) as [Hlt | Hnlt].
    + split; [intros _; lia | reflexivity].
    + split; [| intros Hn; lia].
      destruct (Qeq_bool _ 0); [discriminate |].
      destruct (Qeq_bool _ 0); discriminate.
  - apply r2_score_at_most_one.
Qed.

(** X14: on a frame with a unique index the validation labels are unique
    and none of them labels a training row, so the model is fitted on rows
    that are never scored; the predictions carry the labels of the
    targets. *)
Theorem train_region_no_leakage :
  train_region e df region_name random_state = Ok res ->
  NoDup (index df) ->
  exists train valid,
    Permutation df (valid ++ train) /\
    model res = lstsq (values (select_features train))
                      (values (select_product train)) /\
    index (target_valid res) = index valid /\
    index (preds_valid res) = index valid /\
    NoDup (index valid) /\
    (forall k, In k (index valid) -> ~ In k (index train)).
Proof.
  intros trained Hnd. pose proof trained as Hrows.
  apply train_region_rows in Hrows.
  destruct Hrows as (_ & _ & train & valid & Hperm & _ & Hmodel & Htv & _).
  apply train_region_valid_index in trained.
  destruct trained as (Hidx & _).
  assert (Htarget : index (target_valid res) = index valid).
  { rewrite Htv. unfold index, select_product. rewrite map_map. reflexivity. }
  assert (Hsplit : NoDup (index valid ++ index train)).
  { unfold index. rewrite <- map_app.
    eapply Permutation_NoDup; [apply Permutation_map; exact Hperm | exact Hnd]. }
  exists train, valid.
  split; [exact Hperm |]. split; [exact Hmodel |]. split; [exact Htarget |].
  split; [rewrite <- Hidx; exact Htarget |].
  split; [eapply NoDup_app_remove_r; exact Hsplit |].
  apply NoDup_app_disjoint. exact Hsplit.
Qed.

(** X15: whatever [train_region] returns can be handed to
    [bootstrap_profit]: with at least one iteration, a non-negative sample
    size and a seed that is not negative the resampling raises nothing. *)
Theorem train_region_feeds_bootstrap
    (n_iter n_wells_in_sample n_top_wells : Z) (budget revenue_per_unit : Q)
    (seed : Z) :
  train_region e df region_name random_state = Ok res ->
  (0 < n_iter)%Z -> (0 <= n_wells_in_sample)%Z ->
  (0 <= seed)%Z ->
  exists stats,
    bootstrap_profit e (target_valid res) (preds_valid res) n_iter
      n_wells_in_sample n_top_wells budget revenue_per_unit seed = Ok stats.
Proof.
  intros trained Hiter Hsize Hseed.
  apply train_region_valid_index in trained.
  destruct trained as (Hidx & _ & Hne).
  apply bootstrap_profit_returns; auto.
Qed.

End TrainRegionProperties.

(** ** main: when it returns and how it fails *)

Lemma toy_laws_on files : LibraryLaws (toy_library_on files).
Proof.
  constructor.
  - exact ToyLaws.merge_nargsort_perm.
  - exact ToyLaws.merge_nargsort_sorted.
  - exact ToyLaws.lcg_integers_length.
  - exact ToyLaws.lcg_integers_bound.
  - exact ToyLaws.rotation_perm.
Qed.

Section MainOutcomes.

Context {L : Library} {laws : LibraryLaws L}.

Lemma train_region_short (e : entropy) (df : DataFrame) region_name seed :
  (length df < 2)%nat ->
  train_region e df region_name seed = Raise ValueError.
Proof.
  intros Hn. rewrite train_region_unfold.
  destruct (Nat.ltb_spec (length df) 2); [reflexivity | lia].
Qed.

(** X16: [main] returns a report exactly when the three files of the
    defaults are readable and hold two rows or more each. *)
Theorem main_returns_iff (e : entropy) :
  (exists out, main e = Ok out) <->
  (exists rows0 rows1 rows2, files_loaded rows0 rows1 rows2).
Proof.
  split.
  - intros (out & H). unfold main in H.
    invert_bind H as d Hload. apply load_region_data_inv in Hload.
    destruct Hload as (rows0 & rows1 & rows2 & H0 & H1 & H2 & ->).
    invert_bind H as results Htrain. cbn [mapM fst snd] in Htrain.
    invert_bind Htrain as r0 T0. invert_bind Htrain as rest Htrain'.
    invert_bind Htrain' as r1 T1. invert_bind Htrain' as rest' Htrain''.
    invert_bind Htrain'' as r2 T2.
    apply train_region_rows in T0, T1, T2.
    destruct T0 as [L0 _], T1 as [L1 _], T2 as [L2 _].
    rewrite length_range_index in L0, L1, L2.
    exists rows0, rows1, rows2. repeat split; assumption.
  - intros (rows0 & rows1 & rows2 & Hfiles).
    destruct (main_ok e Hfiles)
      as (r0 & r1 & r2 & s0 & s1 & s2 & table & _ & _ & _ & _ & _ & _ & _ & _
          & Hmain).
    eexists. exact Hmain.
Qed.

(** X17: [main] raises the error of the first file that cannot be read,
    before any training; when the three files are readable but one of them
    holds fewer than two rows, it raises ValueError. *)
Theorem main_failures (e : entropy) :
  (forall err,
     read_csv "Data/geo_data_0.csv" = Raise err -> main e = Raise err) /\
  (forall rows0 err,
     read_csv "Data/geo_data_0.csv" = Ok rows0 ->
     read_csv "Data/geo_data_1.csv" = Raise err -> main e = Raise err) /\
  (forall rows0 rows1 err,
     read_csv "Data/geo_data_0.csv" = Ok rows0 ->
     read_csv "Data/geo_data_1.csv" = Ok rows1 ->
     read_csv "Data/geo_data_2.csv" = Raise err -> main e = Raise err) /\
  (forall rows0 rows1 rows2,
     read_csv "Data/geo_data_0.csv" = Ok rows0 ->
     read_csv "Data/geo_data_1.csv" = Ok rows1 ->
     read_csv "Data/geo_data_2.csv" = Ok rows2 ->
     (length rows0 < 2 \/ length rows1 < 2 \/ length rows2 < 2)%nat ->
     main e = Raise ValueError).
Proof.
  unfold main, load_region_data. repeat split.
  - intros err ->. reflexivity.
  - intros rows0 err -> ->. reflexivity.
  - intros rows0 rows1 err -> -> ->. reflexivity.
  - intros rows0 rows1 rows2 -> -> -> Hshort.
    cbn [bind mapM fst snd].
    assert (Hstep : forall rows name,
              (length rows < 2)%nat \/
              ((2 <= length rows)%nat /\
               exists r, train_region e (range_index rows) name RANDOM_STATE
                         = Ok r)).
    { intros rows name. destruct (Nat.ltb_spec (length rows) 2) as [Hlt | Hge];
        [left; exact Hlt | right].
      destruct (@train_region_ok L laws e (range_index rows) name
                  RANDOM_STATE)
        as (r & Hr & _);
        [rewrite length_range_index; exact Hge
        | apply RANDOM_STATE_in_range |].
      split; [exact Hge |]. exists r. exact Hr. }
    assert (Hraise : forall rows name,
              (length rows < 2)%nat ->
              train_region e (range_index rows) name RANDOM_STATE
              = Raise ValueError).
    { intros rows name Hlt. apply train_region_short.
      rewrite length_range_index. exact Hlt. }
    destruct (Hstep rows0 "0"%string) as [S0 | (L0 & r0 & ->)];
      [rewrite (Hraise _ _ S0); reflexivity |].
    cbn [bind].
    destruct (Hstep rows1 "1"%string) as [S1 | (L1 & r1 & ->)];
      [rewrite (Hraise _ _ S1); reflexivity |].
    cbn [bind].
    destruct (Hstep rows2 "2"%string) as [S2 | (L2 & _)];
      [rewrite (Hraise _ _ S2); reflexivity | lia].
Qed.

End MainOutcomes.

(** ** The final report: rounding and order *)

Lemma round_half_even_floor x :
  (Qfloor x <= round_half_even x <= Qfloor x + 1)%Z.
Proof.
  unfold round_half_even.
  destruct (Qcompare (x - inject_Z (Qfloor x)) (1 # 2));
    [destruct (Z.even (Qfloor x)) | |]; lia.
Qed.

Lemma round_half_even_close x :
  x - (1 # 2) <= inject_Z (round_half_even x) <= x + (1 # 2).
Proof.
  unfold round_half_even.
  pose proof (Qfloor_le x) as Hl. pose proof (Qlt_floor x) as Hu.
  rewrite inject_Z_plus in Hu. change (inject_Z 1) with 1 in Hu.
  destruct (Qcompare_spec (x - inject_Z (Qfloor x)) (1 # 2)) as [He | Hlt | Hgt].
  - destruct (Z.even (Qfloor x));
      [| rewrite inject_Z_plus; change (inject_Z 1) with 1]; split; lra.
  - split; lra.
  - rewrite inject_Z_plus. change (inject_Z 1) with 1. split; lra.
Qed.

Lemma round_half_even_mono x y :
  x <= y -> (round_half_even x <= round_half_even y)%Z.
Proof.
  intros Hxy. pose proof (Qfloor_resp_le _ _ Hxy) as Hf.
  destruct (Z.eq_dec (Qfloor x) (Qfloor y)) as [Heq | Hne].
  - unfold round_half_even. rewrite <- Heq.
    destruct (Qcompare_spec (x - inject_Z (Qfloor x)) (1 # 2));
      destruct (Qcompare_spec (y - inject_Z (Qfloor x)) (1 # 2));
      destruct (Z.even (Qfloor x)); try lia; exfalso; lra.
  - pose proof (round_half_even_floor x). pose proof (round_half_even_floor y).
    lia.
Qed.

Lemma round2_close x : x - (1 # 200) <= round2 x <= x + (1 # 200).
Proof.
  unfold round2. pose proof (round_half_even_close (x * 100)) as [Hl Hu].
  set (R := inject_Z (round_half_even (x * 100))) in *.
  split.
  - apply Qle_shift_div_l; [reflexivity | lra].
  - apply Qle_shift_div_r; [reflexivity | lra].
Qed.

Lemma round2_mono x y : x <= y -> round2 x <= round2 y.
Proof.
  intros Hxy. unfold round2.
  assert (H100 : x * 100 <= y * 100) by lra.
  apply round_half_even_mono in H100. rewrite Zle_Qle in H100.
  unfold Qdiv. apply Qmult_le_compat_r; [exact H100 | discriminate].
Qed.

Section Report.

Context {L : Library} {laws : LibraryLaws L}.

(** X18: the row printed first is the rounded row of a region whose mean
    profit is within one hundredth of the largest mean profit: rounding
    the table before sorting it cannot promote a region that is more than a
    cent behind. *)
Theorem report_top_within_a_cent (summary_rows : list SummaryRow) :
  exists table,
    final_report summary_rows = Ok table /\
    forall top,
      hd_error (values table) = Some top ->
      exists best,
        In best summary_rows /\ top = round_row best /\
        forall r, In r summary_rows ->
                  Beneficio_promedio r - (1 # 100) <= Beneficio_promedio best.
Proof.
  destruct (final_report_ok summary_rows) as (table & F & Hperm & Hdesc).
  exists table. split; [exact F |]. intros top Htop.
  assert (Hvalues : Permutation (values table) (map round_row summary_rows)).
  { apply (Permutation_map snd) in Hperm. fold (values table) in Hperm.
    fold (values (range_index (map round_row summary_rows))) in Hperm.
    rewrite values_range_index in Hperm. apply Permutation_sym, Hperm. }
  assert (Hin : In top (map round_row summary_rows)).
  { eapply Permutation_in; [exact Hvalues |].
    destruct (values table) as [| t rest]; [discriminate |].
    injection Htop as ->. left. reflexivity. }
  apply in_map_iff in Hin. destruct Hin as (best & <- & Hbest).
  exists best. split; [exact Hbest |]. split; [reflexivity |].
  intros r Hr.
  assert (Hle : Beneficio_promedio (round_row r)
                <= Beneficio_promedio (round_row best)).
  { eapply top_is_largest; [exact Hdesc | exact Htop |].
    eapply Permutation_in; [apply Permutation_sym, Hvalues |].
    apply in_map, Hr. }
  cbn [round_row Beneficio_promedio] in Hle.
  pose proof (round2_close (Beneficio_promedio r)) as [Hr1 _].
  pose proof (round2_close (Beneficio_promedio best)) as [_ Hb2].
  lra.
Qed.

(** X19: in the table printed by a run of [main] the rows come from the
    largest mean profit to the smallest, and every row has its interval
    ordered and a risk between 0 and 100 percent. *)
Theorem report_rows_invariants (e : entropy) (rows0 rows1 rows2 : list well) :
  files_loaded rows0 rows1 rows2 ->
  exists out,
    main e = Ok out /\
    descending (map Beneficio_promedio (values (report out))) /\
    Forall (fun r => IC95_low r <= IC95_high r /\
                     0 <= Riesgo_de_perdida r <= 100)
           (values (report out)).
Proof.
  intros Hfiles.
  destruct (main_ok e Hfiles)
    as (r0 & r1 & r2 & s0 & s1 & s2 & table
        & _ & _ & _ & B0 & B1 & B2 & F & _ & Hmain).
  eexists. split; [exact Hmain |]. cbn [report].
  destruct (final_report_ok
              [summary_row r0 s0; summary_row r1 s1; summary_row r2 s2])
    as (table' & F' & Hperm & Hdesc).
  rewrite F in F'. injection F' as <-.
  split; [unfold values; rewrite map_map; exact Hdesc |].
  assert (Hrow : forall res stats,
            bootstrap_with_defaults e res = Ok stats ->
            let r := round_row (summary_row res stats) in
            IC95_low r <= IC95_high r /\ 0 <= Riesgo_de_perdida r <= 100).
  { intros res stats H. apply bootstrap_profit_inv in H.
    destruct H as (_ & _ & Hlo & Hhi & Hrisk & _ & _).
    cbn [round_row summary_row IC95_low IC95_high Riesgo_de_perdida].
    split.
    - apply round2_mono. eapply percentile_monotone; [| exact Hlo | exact Hhi].
      discriminate.
    - pose proof (share_of_losses_range (profits stats)) as [H0 H1].
      rewrite <- Hrisk in H0, H1.
      assert (Z0 : 0 <= round2 0) by (vm_compute; discriminate).
      assert (Z100 : round2 100 <= 100) by (vm_compute; discriminate).
      split.
      + eapply Qle_trans; [exact Z0 | apply round2_mono; lra].
      + eapply Qle_trans; [apply round2_mono | exact Z100]. lra. }
  apply (Permutation_map snd) in Hperm. fold (values table) in Hperm.
  match type of Hperm with
  | Permutation (map snd (range_index ?l)) _ =>
      change (map snd (range_index l)) with (values (range_index l)) in Hperm
  end.
  rewrite values_range_index in Hperm.
  eapply Permutation_Forall; [exact Hperm |].
  cbn [map].
  apply Forall_cons; [apply Hrow; assumption |].
  apply Forall_cons; [apply Hrow; assumption |].
  apply Forall_cons; [apply Hrow; assumption |].
  apply Forall_nil.
Qed.

End Report.

(** ** The labels of the frames read from the files *)

Lemma map_fst_combine {A B} (a : list A) (b : list B) :
  length a = length b -> map fst (combine a b) = a.
Proof.
  revert b. induction a as [| x a IH]; intros [| y b] H; simpl in *;
    try reflexivity; try discriminate.
  rewrite IH by lia. reflexivity.
Qed.

Lemma index_range_index {A} (rows : list A) :
  index (range_index rows) = map Z.of_nat (seq 0 (length rows)).
Proof.
  unfold index, range_index. apply map_fst_combine.
  rewrite length_map, length_seq. reflexivity.
Qed.

Lemma NoDup_map_of_nat (l : list nat) : NoDup l -> NoDup (map Z.of_nat l).
Proof.
  induction 1 as [| x l Hx _ IH]; simpl; constructor; [| exact IH].
  intros Hin. apply in_map_iff in Hin. destruct Hin as (y & Hy & Hin).
  apply Nat2Z.inj in Hy. subst y. contradiction.
Qed.

Lemma range_index_unique {A} (rows : list A) : NoDup (index (range_index rows)).
Proof.
  rewrite index_range_index. apply NoDup_map_of_nat, seq_NoDup.
Qed.

Section MainLabels.

Context {L : Library} {laws : LibraryLaws L}.

Lemma train_region_valid_unique (e : entropy) (df : DataFrame) region_name
    seed res :
  NoDup (index df) ->
  train_region e df region_name seed = Ok res ->
  NoDup (index (target_valid res)).
Proof.
  intros Hnd H. apply train_region_rows in H.
  destruct H as (_ & _ & train & valid & Hperm & _ & _ & -> & _).
  assert (Hidx : index (select_product valid) = index valid).
  { unfold index, select_product. rewrite map_map. reflexivity. }
  rewrite Hidx.
  assert (Hsplit : NoDup (index valid ++ index train)).
  { unfold index. rewrite <- map_app.
    eapply Permutation_NoDup; [apply Permutation_map; exact Hperm | exact Hnd]. }
  eapply NoDup_app_remove_r. exact Hsplit.
Qed.

(** X20: the frames read by [load_region_data] are labelled 0, 1, 2, ...
    without repetition, so in a run of [main] the validation targets of
    every region carry unique labels, shared with the predictions: labels
    repeat only inside the resamples. *)
Theorem main_regions_unique_labels (e : entropy)
    (rows0 rows1 rows2 : list well) :
  (forall path_region_0 path_region_1 path_region_2 d,
     load_region_data path_region_0 path_region_1 path_region_2 = Ok d ->
     Forall (fun item =>
               index (snd item)
               = map Z.of_nat (seq 0 (length (snd item))) /\
               NoDup (index (snd item))) d) /\
  (files_loaded rows0 rows1 rows2 ->
   exists out,
     main e = Ok out /\
     Forall (fun res =>
               NoDup (index (target_valid res)) /\
               index (target_valid res) = index (preds_valid res))
            (region_results out)).
Proof.
  split.
  - intros p0 p1 p2 d H. apply load_region_data_inv in H.
    destruct H as (a & b & c & _ & _ & _ & ->).
    repeat (apply Forall_cons;
            [cbn [snd]; split;
             [rewrite index_range_index, length_range_index; reflexivity
             | apply range_index_unique] |]).
    apply Forall_nil.
  - intros Hfiles.
    destruct (main_ok e Hfiles)
      as (r0 & r1 & r2 & s0 & s1 & s2 & table
          & T0 & T1 & T2 & _ & _ & _ & _ & _ & Hmain).
    eexists. split; [exact Hmain |]. cbn [region_results].
    assert (Hres : forall rows name res,
              train_region e (range_index rows) name RANDOM_STATE = Ok res ->
              NoDup (index (target_valid res)) /\
              index (target_valid res) = index (preds_valid res)).
    { intros rows name res H. split.
      - eapply train_region_valid_unique; [apply range_index_unique | exact H].
      - apply train_region_valid_index in H. tauto. }
    apply Forall_cons; [eapply Hres; exact T0 |].
    apply Forall_cons; [eapply Hres; exact T1 |].
    apply Forall_cons; [eapply Hres; exact T2 |].
    apply Forall_nil.
Qed.

End MainLabels.

(** ** Order statistics under a shift of the values *)

Lemma count_affine (r b v : Q) l2 l1 :
  0 < r ->
  Forall2 (fun p2 p1 => p2 == p1 * r - b) l2 l1 ->
  count (below (v * r - b)) l2 = count (below v) l1 /\
  count (upto (v * r - b)) l2 = count (upto v) l1.
Proof.
  intros Hr. unfold count.
  induction 1 as [| p2 p1 l2 l1 Hp _ [IH1 IH2]]; simpl; [auto |].
  assert (Hb : below (v * r - b) p2 = below v p1).
  { apply eq_true_iff_eq. rewrite !below_spec, Hp.
    rewrite <- (Qmult_lt_r p1 v r Hr). split; intros; lra. }
  assert (Hu : upto (v * r - b) p2 = upto v p1).
  { apply eq_true_iff_eq. rewrite !upto_spec, Hp.
    rewrite <- (Qmult_le_r p1 v r Hr). split; intros; lra. }
  rewrite Hb, Hu. destruct (below v p1), (upto v p1); simpl; lia.
Qed.

(** Scaling every value of an array by [r > 0] and shifting it by [b] does
    the same to its order statistics, hence to its percentiles. *)
Lemma sorted_nth_affine (r b : Q) l2 l1 k d2 d1 :
  0 < r ->
  Forall2 (fun p2 p1 => p2 == p1 * r - b) l2 l1 ->
  (k < length l1)%nat ->
  nth k (QSort.sort l2) d2 == nth k (QSort.sort l1) d1 * r - b.
Proof.
  intros Hr Hrel Hk.
  pose proof (QSort.Permuted_sort l1) as P1.
  pose proof (QSort.Permuted_sort l2) as P2.
  pose proof (Forall2_length Hrel) as Hlen.
  set (a1 := QSort.sort l1) in *. set (a2 := QSort.sort l2) in *.
  assert (K1 : (k < length a1)%nat)
    by (rewrite <- (Permutation_length P1); exact Hk).
  assert (K2 : (k < length a2)%nat)
    by (rewrite <- (Permutation_length P2); lia).
  destruct (ascending_rank d1 (sort_ascending l1) K1) as [B1 U1].
  destruct (ascending_rank d2 (sort_ascending l2) K2) as [B2 U2].
  fold a1 in B1, U1. fold a2 in B2, U2.
  set (v1 := nth k a1 d1) in *. set (v2 := nth k a2 d2) in *.
  destruct (@count_affine r b v1 _ _ Hr Hrel) as [Cb Cu].
  assert (B : (count (below (v1 * r - b)) a2 <= k)%nat).
  { rewrite <- (count_Permutation _ P2), Cb, (count_Permutation _ P1).
    exact B1. }
  assert (U : (k < count (upto (v1 * r - b)) a2)%nat).
  { rewrite <- (count_Permutation _ P2), Cu, (count_Permutation _ P1).
    exact U1. }
  apply Qle_antisym; eapply rank_unique; eauto.
Qed.

Lemma percentile_affine (r b : Q) l2 l1 q c2 c1 :
  0 < r ->
  Forall2 (fun p2 p1 => p2 == p1 * r - b) l2 l1 ->
  percentile l2 q = Ok c2 -> percentile l1 q = Ok c1 -> c2 == c1 * r - b.
Proof.
  intros Hr Hrel H2 H1.
  apply percentile_inv in H1, H2.
  destruct H1 as (Hq & x1 & rest1 & S1 & ->).
  destruct H2 as (_ & x2 & rest2 & S2 & ->).
  pose proof (Permutation_length (QSort.Permuted_sort l1)) as L1.
  pose proof (Permutation_length (QSort.Permuted_sort l2)) as L2.
  pose proof (Forall2_length Hrel) as Hlen.
  rewrite S1 in L1. rewrite S2 in L2. cbn [length] in L1, L2.
  assert (Hrest : length rest2 = length rest1) by lia.
  unfold interpolate. cbn [length]. rewrite Hrest.
  replace (S (length rest1) - 1)%nat with (length rest1) by lia.
  pose proof (virtual_index_range (length rest1) Hq) as Hh.
  set (h := inject_Z (Z.of_nat (length rest1)) * (q / 100)) in *.
  pose proof (floor_range _ Hh) as Hf.
  set (i := Z.to_nat (Qfloor h)).
  set (j := Nat.min (i + 1) (length rest1)).
  rewrite <- S1, <- S2.
  rewrite (sorted_nth_affine (k := i) x2 x1 Hr Hrel) by (unfold i; lia).
  rewrite (sorted_nth_affine (k := j) x2 x1 Hr Hrel) by (unfold j, i; lia).
  ring.
Qed.

(** ** bootstrap_profit: the part of the budget and of the revenue *)

Lemma sum_affine (r b : Q) ps ps0 :
  Forall2 (fun p p0 => p == p0 * r - b) ps ps0 ->
  sum ps == sum ps0 * r - inject_Z (Z.of_nat (length ps0)) * b.
Proof.
  induction 1 as [| p p0 ps ps0 Hp _ IH].
  - cbn [sum fold_right length]. change (inject_Z (Z.of_nat 0)) with 0. ring.
  - cbn [sum fold_right length]. fold (sum ps). fold (sum ps0).
    rewrite Nat2Z.inj_succ, <- Z.add_1_l, inject_Z_plus.
    change (inject_Z 1) with 1. rewrite Hp, IH. ring.
Qed.

Lemma mean_affine (r b : Q) ps ps0 :
  ps0 <> [] ->
  Forall2 (fun p p0 => p == p0 * r - b) ps ps0 ->
  mean ps == mean ps0 * r - b.
Proof.
  intros Hne H.
  assert (Hlen : length ps = length ps0) by (eapply Forall2_length; eauto).
  assert (Hne' : ps <> []).
  { destruct ps; [destruct ps0; [congruence | discriminate] | discriminate]. }
  pose proof (mean_times_length Hne) as H0.
  pose proof (mean_times_length Hne') as H1.
  rewrite (sum_affine H), Hlen in H1.
  assert (Hn : ~ inject_Z (Z.of_nat (length ps0)) == 0).
  { change 0 with (inject_Z 0). rewrite inject_Z_injective.
    destruct ps0; [congruence | simpl; lia]. }
  apply (Qmult_inj_r _ _ _ Hn). rewrite H1, <- H0. ring.
Qed.

Lemma is_loss_mono p1 p2 : p2 <= p1 -> is_loss p1 <= is_loss p2.
Proof.
  intros H. unfold is_loss.
  destruct (Qle_bool 0 p1) eqn:E1, (Qle_bool 0 p2) eqn:E2;
    try discriminate; try apply Qle_refl.
  exfalso. apply Qle_bool_iff in E2.
  assert (Hp : 0 <= p1) by lra. apply Qle_bool_iff in Hp. congruence.
Qed.

Lemma share_of_losses_mono ps1 ps2 :
  Forall2 (fun p1 p2 => p2 <= p1) ps1 ps2 ->
  mean (map is_loss ps1) <= mean (map is_loss ps2).
Proof.
  intros H.
  assert (Hlen : length ps1 = length ps2) by (eapply Forall2_length; eauto).
  assert (Hsum : sum (map is_loss ps1) <= sum (map is_loss ps2)).
  { induction H as [| p1 p2 ps1 ps2 Hp _ IH]; [apply Qle_refl |].
    cbn [map sum fold_right]. fold (sum (map is_loss ps1)).
    fold (sum (map is_loss ps2)).
    pose proof (is_loss_mono Hp). simpl in Hlen.
    assert (sum (map is_loss ps1) <= sum (map is_loss ps2))
      by (apply IH; lia).
    lra. }
  unfold mean. rewrite !length_map, Hlen. unfold Qdiv.
  apply Qmult_le_compat_r; [exact Hsum |].
  apply Qinv_le_0_compat. change 0 with (inject_Z 0). rewrite <- Zle_Qle. lia.
Qed.

Section BudgetAndRevenue.

Context {L : Library}.

Variables (target_valid predictions_valid : Series).
Variables (n_wells_in_sample n_top_wells : Z).

(** The wells selected, hence the production added, do not depend on
    [budget] and [revenue_per_unit]. *)
Lemma calculate_profit_total_product st sp b1 r1 v1 :
  calculate_profit st sp b1 r1 n_wells_in_sample n_top_wells = Ok v1 ->
  exists total,
    v1 = total * r1 - b1 /\
    forall b2 r2,
      calculate_profit st sp b2 r2 n_wells_in_sample n_top_wells
      = Ok (total * r2 - b2).
Proof.
  unfold calculate_profit. intros H.
  invert_bind H as order Hsort. invert_bind H as sel Hloc.
  injection H as <-. exists (sum (values sel)). split; [reflexivity |].
  intros b2 r2. rewrite Hsort. cbn [bind]. rewrite Hloc. reflexivity.
Qed.

Lemma for_range_bootstrap_related (R : Q -> Q -> Prop) indices b1 r1 b2 r2 :
  (forall total, R (total * r1 - b1) (total * r2 - b2)) ->
  forall n g acc1 acc2 g' ps1,
    for_range n
      (bootstrap_iteration target_valid predictions_valid indices
         n_wells_in_sample n_top_wells b1 r1) (g, acc1) = Ok (g', ps1) ->
    Forall2 R acc1 acc2 ->
    exists ps2,
      for_range n
        (bootstrap_iteration target_valid predictions_valid indices
           n_wells_in_sample n_top_wells b2 r2) (g, acc2) = Ok (g', ps2) /\
      Forall2 R ps1 ps2.
Proof.
  intros HR. induction n as [| n IH]; intros g acc1 acc2 g' ps1 H Hacc.
  - cbn [for_range] in *. injection H as <- <-. exists acc2. auto.
  - cbn [for_range] in *. invert_bind H as st Hst.
    unfold bootstrap_iteration in Hst.
    invert_bind Hst as drawn Hdrawn. destruct drawn as [sample g1].
    invert_bind Hst as stg Hstg. invert_bind Hst as spr Hspr.
    invert_bind Hst as v1 Hv1. injection Hst as <-.
    destruct (calculate_profit_total_product _ _ _ _ Hv1) as (total & -> & Hall).
    unfold bootstrap_iteration at 1. rewrite Hdrawn. cbn [bind].
    rewrite Hstg, Hspr. cbn [bind]. rewrite (Hall b2 r2). cbn [bind].
    eapply IH; [exact H |].
    apply Forall2_app; [exact Hacc |]. constructor; [apply HR | constructor].
Qed.

Lemma bootstrap_profit_of_loop (e : entropy) n_iter budget revenue_per_unit
    random_state g ps :
  bootstrap_loop target_valid predictions_valid (index target_valid) n_iter
    n_wells_in_sample n_top_wells budget revenue_per_unit
    (seeded_rng random_state) = Ok (g, ps) ->
  ps <> [] ->
  (0 <= random_state)%Z ->
  exists stats,
    bootstrap_profit e target_valid predictions_valid n_iter
      n_wells_in_sample n_top_wells budget revenue_per_unit random_state
    = Ok stats /\
    profits stats = ps /\ mean_profit stats = mean ps /\
    risk stats = mean (map is_loss ps) /\
    percentile ps (5 # 2) = Ok (ci_low stats) /\
    percentile ps (195 # 2) = Ok (ci_high stats).
Proof.
  intros Hloop Hne Hseed. unfold bootstrap_profit.
  rewrite default_rng_ok by exact Hseed. cbn [bind].
  rewrite Hloop. cbn [bind].
  destruct (percentile_nonempty (q := 5 # 2) Hne) as (lo & Hlo);
    [split; discriminate |].
  destruct (percentile_nonempty (q := 195 # 2) Hne) as (hi & Hhi);
    [split; discriminate |].
  rewrite Hlo, Hhi. cbn [bind]. eexists. split; [reflexivity |].
  cbn [profits mean_profit risk ci_low ci_high]. auto.
Qed.

Variables (e : entropy) (n_iter random_state : Z).

(** X21: the resamples and the wells selected in them do not depend on the
    budget or on the revenue per unit.  If [bootstrap_profit] returns with
    budget 0 and revenue 1 (its profits are then the productions selected),
    it returns for every budget and revenue, each profit being the matching
    production times the revenue minus the budget; so is the mean, and, for
    a positive revenue, so are both ends of the interval. *)
Theorem bootstrap_profit_affine (production : Stats)
    (budget revenue_per_unit : Q) :
  bootstrap_profit e target_valid predictions_valid n_iter n_wells_in_sample
    n_top_wells 0 1 random_state = Ok production ->
  exists stats,
    bootstrap_profit e target_valid predictions_valid n_iter
      n_wells_in_sample n_top_wells budget revenue_per_unit random_state
    = Ok stats /\
    Forall2 (fun p p0 => p == p0 * revenue_per_unit - budget)
      (profits stats) (profits production) /\
    mean_profit stats == mean_profit production * revenue_per_unit - budget /\
    (0 < revenue_per_unit ->
     ci_low stats == ci_low production * revenue_per_unit - budget /\
     ci_high stats == ci_high production * revenue_per_unit - budget).
Proof.
  intros H. apply bootstrap_profit_inv in H.
  destruct H
    as ((g & Hloop) & Hmean & Hlo0 & Hhi0 & _ & Hlen & Hpos & Hseed).
  unfold bootstrap_loop in Hloop.
  destruct (@for_range_bootstrap_related
              (fun p0 p => p == p0 * revenue_per_unit - budget)
              (index target_valid) 0 1 budget revenue_per_unit
              ltac:(intros total; cbv beta; ring)
              _ _ _ [] _ _ Hloop (Forall2_nil _)) as (ps & Hloop' & Hrel).
  assert (Hrel' : Forall2 (fun p p0 => p == p0 * revenue_per_unit - budget)
                    ps (profits production)).
  { clear - Hrel. induction Hrel; constructor; auto. }
  assert (Hne0 : profits production <> []).
  { destruct (profits production); [simpl in Hlen; lia | discriminate]. }
  assert (Hne : ps <> []).
  { destruct ps; [| discriminate]. inversion Hrel'; subst. congruence. }
  destruct (@bootstrap_profit_of_loop e n_iter budget revenue_per_unit
              random_state _ _ Hloop' Hne Hseed)
    as (stats & Hstats & Hps & Hm & _ & Hlo & Hhi).
  exists stats. split; [exact Hstats |]. rewrite Hps, Hm, Hmean.
  split; [exact Hrel' |]. split; [apply mean_affine; assumption |].
  intros Hr. split; eapply percentile_affine; eauto.
Qed.

(** X22: raising the budget, all else equal, lowers the mean profit and
    both ends of the interval by the same amount and never lowers the
    risk. *)
Theorem bootstrap_profit_budget_increase (stats1 : Stats)
    (budget1 budget2 revenue_per_unit : Q) :
  budget1 <= budget2 ->
  bootstrap_profit e target_valid predictions_valid n_iter n_wells_in_sample
    n_top_wells budget1 revenue_per_unit random_state = Ok stats1 ->
  exists stats2,
    bootstrap_profit e target_valid predictions_valid n_iter
      n_wells_in_sample n_top_wells budget2 revenue_per_unit random_state
    = Ok stats2 /\
    mean_profit stats2 == mean_profit stats1 - (budget2 - budget1) /\
    ci_low stats2 == ci_low stats1 - (budget2 - budget1) /\
    ci_high stats2 == ci_high stats1 - (budget2 - budget1) /\
    risk stats1 <= risk stats2.
Proof.
  intros Hb H. apply bootstrap_profit_inv in H.
  destruct H
    as ((g & Hloop) & Hmean & Hlo1 & Hhi1 & Hrisk & Hlen & Hpos & Hseed).
  unfold bootstrap_loop in Hloop.
  destruct (@for_range_bootstrap_related
              (fun p1 p2 => p2 == p1 * 1 - (budget2 - budget1))
              (index target_valid) budget1 revenue_per_unit budget2
              revenue_per_unit ltac:(intros total; cbv beta; ring)
              _ _ _ [] _ _ Hloop (Forall2_nil _)) as (ps & Hloop' & Hrel).
  assert (Hrel' : Forall2 (fun p p0 => p == p0 * 1 - (budget2 - budget1))
                    ps (profits stats1)).
  { clear - Hrel. induction Hrel; constructor; auto. }
  assert (Hle : Forall2 (fun p1 p2 => p2 <= p1) (profits stats1) ps).
  { clear - Hrel Hb. induction Hrel as [| p1 p2 ? ? Hp _ IH]; constructor; auto.
    rewrite Hp. lra. }
  assert (Hne0 : profits stats1 <> []).
  { destruct (profits stats1); [simpl in Hlen; lia | discriminate]. }
  assert (Hne : ps <> []).
  { destruct ps; [| discriminate]. inversion Hrel'; subst. congruence. }
  destruct (@bootstrap_profit_of_loop e n_iter budget2 revenue_per_unit
              random_state _ _ Hloop' Hne Hseed)
    as (stats2 & Hstats & Hps & Hm & Hr & Hlo2 & Hhi2).
  assert (Hone : (0 : Q) < 1) by reflexivity.
  pose proof (@percentile_affine _ _ _ _ _ _ _ Hone Hrel' Hlo2 Hlo1) as Clo.
  pose proof (@percentile_affine _ _ _ _ _ _ _ Hone Hrel' Hhi2 Hhi1) as Chi.
  exists stats2. split; [exact Hstats |]. rewrite Hm, Hr, Hmean, Hrisk.
  split; [rewrite (mean_affine Hne0 Hrel'); ring |].
  split; [rewrite Clo; ring |]. split; [rewrite Chi; ring |].
  apply share_of_losses_mono, Hle.
Qed.

End BudgetAndRevenue.

(** ** calculate_profit: selecting more wells *)

Lemma sum_app l1 l2 : sum (l1 ++ l2) == sum l1 + sum l2.
Proof.
  induction l1 as [| x l1 IH]; cbn [app sum fold_right].
  - fold (sum l2). ring.
  - fold (sum (l1 ++ l2)). fold (sum l1). rewrite IH. ring.
Qed.

Lemma firstn_split_le {A} (l : list A) n m :
  (n <= m)%nat -> firstn m l = firstn n l ++ firstn (m - n) (skipn n l).
Proof.
  intros Hle. rewrite <- (firstn_skipn n l) at 1.
  rewrite firstn_app, firstn_firstn, Nat.min_r by lia.
  destruct (Nat.le_gt_cases (length l) n) as [Hlen | Hlen].
  - rewrite (firstn_all2 (n := n) l Hlen), (skipn_all2 (n := n) l Hlen).
    rewrite !firstn_nil. reflexivity.
  - rewrite length_firstn, Nat.min_l by lia. reflexivity.
Qed.

Lemma rows_at_incl {A} (s : Frame A) k : incl (rows_at s k) s.
Proof. unfold rows_at. intros x Hx. apply filter_In in Hx. tauto. Qed.

Section MoreWells.

Context {L : Library}.

(** X23: the budget is one amount, not a cost per well: as long as no
    production is negative and the revenue per unit is not, selecting more
    wells never lowers the profit. *)
Theorem calculate_profit_more_wells (target_valid predictions_valid : Series)
    (budget revenue_per_unit : Q) (n_wells_in_sample n m : Z) (profit_m : Q) :
  (0 <= n <= m)%Z ->
  0 <= revenue_per_unit ->
  (forall row, In row target_valid -> 0 <= snd row) ->
  calculate_profit target_valid predictions_valid budget revenue_per_unit
    n_wells_in_sample m = Ok profit_m ->
  exists profit_n,
    calculate_profit target_valid predictions_valid budget revenue_per_unit
      n_wells_in_sample n = Ok profit_n /\
    profit_n <= profit_m.
Proof.
  intros Hnm Hr Hpos H. unfold calculate_profit in *.
  invert_bind H as order Hsort. rewrite Hsort. cbn [bind].
  invert_bind H as sel_m Hloc. injection H as <-.
  unfold head in *.
  destruct (Z.leb_spec 0 m) as [_ | Hneg]; [| lia].
  destruct (Z.leb_spec 0 n) as [_ | Hneg]; [| lia].
  rewrite (firstn_split_le order (n := Z.to_nat n) (m := Z.to_nat m)) in Hloc
    by lia.
  unfold index in Hloc. rewrite map_app in Hloc.
  fold (index (firstn (Z.to_nat n) order)) in Hloc.
  set (keys_n := index (firstn (Z.to_nat n) order)) in *.
  set (more := map fst (firstn (Z.to_nat m - Z.to_nat n)
                          (skipn (Z.to_nat n) order))) in *.
  pose proof (loc_keys _ _ Hloc) as Hin.
  rewrite (loc_flat_map _ _ Hloc).
  rewrite loc_total
    by (intros k Hk; apply Hin, in_or_app; left; exact Hk).
  cbn [bind]. eexists. split; [reflexivity |].
  rewrite flat_map_app. unfold values. rewrite map_app, sum_app.
  assert (Hmore : 0 <= sum (map snd (flat_map (rows_at target_valid) more))).
  { apply sum_nonneg. intros x Hx. apply in_map_iff in Hx.
    destruct Hx as (row & <- & Hrow). apply Hpos.
    apply in_flat_map in Hrow. destruct Hrow as (k & _ & Hrow).
    eapply rows_at_incl. exact Hrow. }
  set (a := sum (map snd (flat_map (rows_at target_valid) keys_n))) in *.
  set (b := sum (map snd (flat_map (rows_at target_valid) more))) in *.
  nra.
Qed.

End MoreWells.

(** ** The further properties at the executable instance *)

Lemma three_target_unique : NoDup (index three_target).
Proof.
  repeat constructor; simpl; intuition discriminate.
Qed.

Lemma calculate_profit_KeyError_witness :
  calculate_profit (L := Toy.library) three_target [(0%Z, 5); (7%Z, 9)]
    0 1 500 2 = Raise KeyError.
Proof.
  destruct (@calculate_profit_KeyError Toy.library ToyLaws.laws three_target
              [(0%Z, 5); (7%Z, 9)] 0 1 500%Z 2%Z)
    as (order & _ & _ & _ & _ & H).
  apply H; [simpl; lia |].
  intros Hin. specialize (Hin 7%Z). simpl in Hin.
  destruct Hin as [H0 | [H1 | [H2 | []]]]; [tauto | | |]; discriminate.
Defined.

Lemma calculate_profit_counts_copies_witness :
  exists order selected,
    Permutation twice_pred order /\
    descending (values order) /\
    loc twice_target (index (head order 1)) = Ok selected /\
    20 = sum (values selected) * 1 - 0 /\
    length selected
    = list_sum (map (count_occ Z.eq_dec (index twice_target))
                    (index (head order 1))).
Proof.
  apply (@calculate_profit_counts_copies Toy.library ToyLaws.laws
           twice_target twice_pred 0 1 500%Z 1%Z 20).
  vm_compute. reflexivity.
Defined.

Lemma calculate_profit_unique_index_witness :
  exists order selected,
    Permutation three_pred order /\
    descending (values order) /\
    loc three_target (index (firstn (Z.to_nat 2) order)) = Ok selected /\
    index selected = index (firstn (Z.to_nat 2) order) /\
    length selected = Nat.min (Z.to_nat 2) (length three_target) /\
    calculate_profit (L := Toy.library) three_target three_pred 0 1 500 2
    = Ok (sum (values selected) * 1 - 0).
Proof.
  apply (@calculate_profit_unique_index Toy.library ToyLaws.laws three_target
           three_pred 0 1 500%Z 2%Z three_target_unique eq_refl).
  lia.
Defined.

Lemma calculate_profit_unique_index_all_witness :
  exists p,
    calculate_profit (L := Toy.library) three_target three_pred 0 1 500 3
    = Ok p /\
    p == sum (values three_target) * 1 - 0.
Proof.
  apply (@calculate_profit_unique_index_all Toy.library ToyLaws.laws
           three_target three_pred 0 1 500%Z 3%Z three_target_unique eq_refl).
  simpl. lia.
Defined.

Lemma calculate_profit_no_selection_witness :
  exists v,
    calculate_profit (L := Toy.library) three_target twice_pred 60 1 500 0
    = Ok v /\
    v == - 60.
Proof.
  apply (@calculate_profit_no_selection Toy.library ToyLaws.laws three_target
           twice_pred 60 1 500%Z 0%Z).
  left. reflexivity.
Defined.

Lemma calculate_profit_negative_top_witness :
  exists order selected,
    Permutation three_pred order /\
    descending (values order) /\
    loc three_target
      (index (firstn (length order - Z.to_nat (- -1)) order)) = Ok selected /\
    length selected = (length three_target - Z.to_nat (- -1))%nat /\
    calculate_profit (L := Toy.library) three_target three_pred 0 1 500 (-1)
    = Ok (sum (values selected) * 1 - 0).
Proof.
  apply (@calculate_profit_negative_top Toy.library ToyLaws.laws three_target
           three_pred 0 1 500%Z (-1)%Z three_target_unique eq_refl).
  lia.
Defined.

Lemma bootstrap_profit_no_iteration_witness :
  bootstrap_profit (L := Toy.library) 7%Z three_target three_pred
    0 3 2 60 1 12345 = Raise IndexError /\
  bootstrap_profit (L := Toy.library) 7%Z three_target three_pred
    0 3 2 60 1 (-1) = Raise ValueError.
Proof.
  destruct (@bootstrap_profit_no_iteration Toy.library 7%Z three_target
              three_pred 0%Z 3%Z 2%Z 60 1 12345%Z ltac:(lia)) as (Hindex & _).
  destruct (@bootstrap_profit_no_iteration Toy.library 7%Z three_target
              three_pred 0%Z 3%Z 2%Z 60 1 (-1)%Z ltac:(lia)) as (_ & Hvalue).
  split; [apply Hindex | apply Hvalue]; lia.
Defined.

Lemma bootstrap_profit_bad_sample_size_witness :
  bootstrap_profit (L := Toy.library) 7%Z three_target three_pred
    4 (-1) 2 60 1 12345 = Raise ValueError.
Proof.
  apply (@bootstrap_profit_bad_sample_size Toy.library 7%Z three_target
           three_pred 4%Z (-1)%Z 2%Z 60 1 12345%Z); [lia | left; lia].
Defined.

Lemma bootstrap_profit_empty_samples_witness :
  exists stats,
    bootstrap_profit (L := Toy.library) 7%Z three_target twice_pred
      4 0 2 60 1 12345 = Ok stats /\
    profits stats = repeat (0 * 1 - 60) (Z.to_nat 4) /\
    mean_profit stats == - 60 /\
    ci_low stats == - 60 /\
    ci_high stats == - 60 /\
    (0 < 60 -> risk stats == 1) /\
    (60 <= 0 -> risk stats == 0).
Proof.
  apply (@bootstrap_profit_empty_samples Toy.library ToyLaws.laws 7%Z
           three_target twice_pred 4%Z 2%Z 60 1 12345%Z); lia.
Defined.

Lemma bootstrap_statistics_within_profits_witness :
  exists stats,
    bootstrap_profit (L := Toy.library) 7%Z three_target three_pred
      4 3 2 60 1 12345 = Ok stats /\
    - 10 <= mean_profit stats <= 60 /\
    - 10 <= ci_low stats <= 60 /\
    - 10 <= ci_high stats <= 60.
Proof.
  eexists. split; [vm_compute; reflexivity |].
  apply (@bootstrap_statistics_within_profits Toy.library 7%Z three_target
           three_pred 4%Z 3%Z 2%Z 60 1 12345%Z);
    [vm_compute; reflexivity |].
  intros p Hp. cbn [profits In] in Hp.
  destruct Hp as [<- | [<- | [<- | [<- | []]]]]; split; discriminate.
Defined.

Lemma bootstrap_risk_extremes_witness :
  exists stats,
    bootstrap_profit (L := Toy.library) 7%Z three_target three_pred
      4 3 2 60 1 12345 = Ok stats /\
    (risk stats == 0 <-> forall p, In p (profits stats) -> 0 <= p) /\
    (risk stats == 1 <-> forall p, In p (profits stats) -> p < 0).
Proof.
  eexists. split; [vm_compute; reflexivity |].
  apply (@bootstrap_risk_extremes Toy.library 7%Z three_target three_pred
           4%Z 3%Z 2%Z 60 1 12345%Z).
  vm_compute. reflexivity.
Defined.

Lemma oversized_resample_repeats_a_label_witness :
  exists sample g',
    choice (L := Toy.library) 12345%Z [0; 1]%Z 3 = Ok (sample, g') /\
    ~ NoDup sample.
Proof.
  assert (H : exists sample g',
            choice (L := Toy.library) 12345%Z [0; 1]%Z 3 = Ok (sample, g'))
    by (eexists; eexists; vm_compute; reflexivity).
  destruct H as (sample & g' & H). exists sample, g'. split; [exact H |].
  apply (@oversized_resample_repeats_a_label Toy.library ToyLaws.laws
           12345%Z g' [0; 1]%Z sample 3%Z); [simpl; lia | exact H].
Defined.

Lemma train_region_r2_witness :
  exists res,
    train_region (L := Toy.library) 7%Z (range_index (Toy.data 90)) "0" 12345
    = Ok res /\
    (r2 res = None <-> (length (range_index (Toy.data 90)) <= 4)%nat) /\
    (forall v, r2 res = Some v -> v <= 1).
Proof.
  eexists. split; [vm_compute; reflexivity |].
  apply (@train_region_r2 Toy.library ToyLaws.laws 7%Z
           (range_index (Toy.data 90)) "0"%string 12345%Z).
  vm_compute. reflexivity.
Defined.

Lemma train_region_no_leakage_witness :
  exists res train valid,
    train_region (L := Toy.library) 7%Z (range_index (Toy.data 90)) "0" 12345
    = Ok res /\
    Permutation (range_index (Toy.data 90)) (valid ++ train) /\
    NoDup (index valid) /\
    (forall k, In k (index valid) -> ~ In k (index train)).
Proof.
  assert (Hres : exists res,
            train_region (L := Toy.library) 7%Z (range_index (Toy.data 90))
              "0" 12345 = Ok res)
    by (eexists; vm_compute; reflexivity).
  destruct Hres as (res & Hres).
  destruct (@train_region_no_leakage Toy.library ToyLaws.laws 7%Z
              (range_index (Toy.data 90)) "0"%string 12345%Z res Hres
              (range_index_unique (Toy.data 90)))
    as (train & valid & Hperm & _ & _ & _ & Hnd & Hdisj).
  exists res, train, valid. auto.
Defined.

Lemma train_region_feeds_bootstrap_witness :
  exists res stats,
    train_region (L := Toy.library) 7%Z (range_index (Toy.data 90)) "0" 12345
    = Ok res /\
    bootstrap_profit (L := Toy.library) 7%Z (target_valid res)
      (preds_valid res) 4 3 2 60 1 12345 = Ok stats.
Proof.
  assert (Hres : exists res,
            train_region (L := Toy.library) 7%Z (range_index (Toy.data 90))
              "0" 12345 = Ok res)
    by (eexists; vm_compute; reflexivity).
  destruct Hres as (res & Hres).
  destruct (@train_region_feeds_bootstrap Toy.library ToyLaws.laws 7%Z
              (range_index (Toy.data 90)) "0"%string 12345%Z res
              4%Z 3%Z 2%Z 60 1 12345%Z Hres) as (stats & Hstats);
    [lia | lia | lia |].
  exists res, stats. auto.
Defined.

Lemma main_returns_iff_witness :
  (exists out, main (L := Toy.library) 7%Z = Ok out) /\
  ~ (exists out, main (L := toy_library_on no_files) 7%Z = Ok out).
Proof.
  split.
  - apply (@main_returns_iff Toy.library ToyLaws.laws 7%Z).
    exists (Toy.data 90), (Toy.data 60), (Toy.data 95).
    exact toy_files_loaded.
  - intros H.
    apply (@main_returns_iff (toy_library_on no_files) (toy_laws_on no_files)
             7%Z) in H.
    destruct H as (rows0 & rows1 & rows2 & H0 & _). discriminate.
Defined.

Lemma main_failures_witness :
  main (L := toy_library_on no_files) 7%Z = Raise OSError /\
  main (L := toy_library_on short_second_file) 7%Z = Raise ValueError.
Proof.
  split.
  - destruct (@main_failures (toy_library_on no_files) (toy_laws_on no_files)
                7%Z) as (H & _).
    apply H. reflexivity.
  - destruct (@main_failures (toy_library_on short_second_file)
                (toy_laws_on short_second_file) 7%Z) as (_ & _ & _ & H).
    apply (H (Toy.data 90) (firstn 1 (Toy.data 60)) (Toy.data 95));
      try reflexivity.
    right. left. simpl. lia.
Defined.

Lemma report_top_within_a_cent_witness :
  exists table,
    final_report (L := Toy.library) risky_and_safe = Ok table /\
    forall top,
      hd_error (values table) = Some top ->
      exists best,
        In best risky_and_safe /\ top = round_row best /\
        forall r, In r risky_and_safe ->
                  Beneficio_promedio r - (1 # 100) <= Beneficio_promedio best.
Proof.
  exact (@report_top_within_a_cent Toy.library ToyLaws.laws risky_and_safe).
Defined.

Lemma report_rows_invariants_witness :
  exists out,
    main (L := Toy.library) 7%Z = Ok out /\
    descending (map Beneficio_promedio (values (report out))) /\
    Forall (fun r => IC95_low r <= IC95_high r /\
                     0 <= Riesgo_de_perdida r <= 100)
           (values (report out)).
Proof.
  exact (@report_rows_invariants Toy.library ToyLaws.laws 7%Z _ _ _
           toy_files_loaded).
Defined.

Lemma main_regions_unique_labels_witness :
  exists out,
    main (L := Toy.library) 7%Z = Ok out /\
    Forall (fun res =>
              NoDup (index (target_valid res)) /\
              index (target_valid res) = index (preds_valid res))
           (region_results out).
Proof.
  destruct (@main_regions_unique_labels Toy.library ToyLaws.laws 7%Z
              (Toy.data 90) (Toy.data 60) (Toy.data 95)) as (_ & H).
  exact (H toy_files_loaded).
Defined.

Lemma bootstrap_profit_affine_witness :
  exists production stats,
    bootstrap_profit (L := Toy.library) 7%Z three_target three_pred
      4 3 2 0 1 12345 = Ok production /\
    bootstrap_profit (L := Toy.library) 7%Z three_target three_pred
      4 3 2 60 2 12345 = Ok stats /\
    mean_profit stats == mean_profit production * 2 - 60 /\
    ci_low stats == ci_low production * 2 - 60 /\
    ci_high stats == ci_high production * 2 - 60.
Proof.
  assert (H : exists production,
            bootstrap_profit (L := Toy.library) 7%Z three_target three_pred
              4 3 2 0 1 12345 = Ok production)
    by (eexists; vm_compute; reflexivity).
  destruct H as (production & H).
  destruct (@bootstrap_profit_affine Toy.library three_target three_pred
              3%Z 2%Z 7%Z 4%Z 12345%Z production 60 2 H)
    as (stats & Hstats & _ & Hmean & Hci).
  destruct (Hci ltac:(reflexivity)) as (Hlo & Hhi).
  exists production, stats. auto 10.
Defined.

Lemma bootstrap_profit_budget_increase_witness :
  exists stats1 stats2,
    bootstrap_profit (L := Toy.library) 7%Z three_target three_pred
      4 3 2 25 1 12345 = Ok stats1 /\
    bootstrap_profit (L := Toy.library) 7%Z three_target three_pred
      4 3 2 60 1 12345 = Ok stats2 /\
    mean_profit stats2 == mean_profit stats1 - (60 - 25) /\
    ci_low stats2 == ci_low stats1 - (60 - 25) /\
    ci_high stats2 == ci_high stats1 - (60 - 25) /\
    risk stats1 <= risk stats2.
Proof.
  assert (H : exists stats1,
            bootstrap_profit (L := Toy.library) 7%Z three_target three_pred
              4 3 2 25 1 12345 = Ok stats1)
    by (eexists; vm_compute; reflexivity).
  destruct H as (stats1 & H).
  destruct (@bootstrap_profit_budget_increase Toy.library three_target
              three_pred 3%Z 2%Z 7%Z 4%Z 12345%Z stats1 25 60 1
              ltac:(discriminate) H)
    as (stats2 & Hstats & Hmean & Hlo & Hhi & Hrisk).
  exists stats1, stats2. auto 10.
Defined.

Lemma calculate_profit_more_wells_witness :
  exists profit_1,
    calculate_profit (L := Toy.library) three_target three_pred 60 1 500 1
    = Ok profit_1 /\
    profit_1 <= (-10 # 1).
Proof.
  apply (@calculate_profit_more_wells Toy.library three_target three_pred
           60 1 500%Z 1%Z 2%Z (-10 # 1)).
  - lia.
  - discriminate.
  - intros row Hrow. simpl in Hrow.
    destruct Hrow as [<- | [<- | [<- | []]]]; discriminate.
  - vm_compute. reflexivity.
Defined.
